(** * The todo tracker of pi-superpowers: reducer and reconstructor

    A shallow embedding of [extensions/todo-tracker/index.ts].

    The file reads the code twice.

    - By value: a [TodoState] is a record holding a list of items, and
      [execute] maps a state and a request to the next state and the tool
      result.  The properties of one call and of a run of calls are stated
      on this reading.
    - With object identity ([Module Shared]): item objects and arrays live
      in a store, [makeDetails] copies the array but not the items,
      [reconstructState] keeps the array of the record it reads, and the
      session log holds the details object the tool returned.

    [execute_agrees] relates the two: on a well-formed store one call does
    the same under both readings, and [every_call_agrees] shows that the
    store of a session is always well formed.  What the sharing changes is
    reconstruction over a branch whose tip has moved back; this is studied
    at the end of the file.

    Numbers.  [id], [nextId] and the lengths are JavaScript numbers that
    hold integers; they are modelled as [Z] and [nat].  The model is exact
    as long as the values stay below 2^53, where [nextId++] is exact. *)

From stdpp Require Import base list strings pretty.
From Stdlib Require Import ZArith Lia Permutation Sorted.

Local Open Scope Z_scope.

(** ** Types *)

Inductive TodoStatus := pending | in_progress | done | skipped | blocked.

Global Instance TodoStatus_eq_dec : EqDecision TodoStatus.
Proof. solve_decision. Defined.

Record TodoItem := {
  id : Z;
  text : string;
  status : TodoStatus;
  reason : option string;   (* for skipped/blocked *)
  group : option string     (* optional grouping *)
}.

Record TodoState := {
  items : list TodoItem;
  nextId : Z;
  listName : option string
}.

(** [TodoDetails extends TodoState]: the three fields of the state are kept
    together as [snapshot]. *)
Record TodoDetails := {
  action : string;
  snapshot : TodoState;
  error : option string
}.

(** ** Schema *)

(** [ActionEnum].  [Unknown] stands for an action string outside the
    enumeration, which is what the [default] branch of [execute] handles. *)
Inductive Action :=
  | Create | Add | Batch | Start | Done | Skip | Block | Reset
  | List | Summary | Clear
  | Unknown (name : string).

Definition action_name (a : Action) : string :=
  match a with
  | Create => "create" | Add => "add" | Batch => "batch"
  | Start => "start" | Done => "done" | Skip => "skip"
  | Block => "block" | Reset => "reset"
  | List => "list" | Summary => "summary" | Clear => "clear"
  | Unknown name => name
  end.

Record BatchEntry := {
  e_text : string;
  e_group : option string
}.

(** [TodoParams]; every field but [action] is optional.  An [id] that is
    not an integer equals the id of no item, and behaves as an integer id
    that no item has. *)
Record TodoToolInput := {
  p_action : Action;
  p_name : option string;
  p_text : option string;
  p_items : option (list BatchEntry);
  p_id : option Z;
  p_reason : option string;
  p_group : option string
}.

(** JavaScript truthiness of an optional string: [undefined] and the empty
    string are falsy. *)
Definition truthy (s : option string) : bool :=
  match s with
  | None => false
  | Some s => negb (String.eqb s "")
  end.

Definition newline : string := String (Ascii.ascii_of_nat 10) EmptyString.

(** ** Status helpers *)

Definition STATUS_ICONS (s : TodoStatus) : string :=
  match s with
  | pending => "○"
  | in_progress => "◉"
  | done => "✓"
  | skipped => "⊘"
  | blocked => "✗"
  end.

(** The string a status value is, as it appears in a template literal. *)
Definition status_name (s : TodoStatus) : string :=
  match s with
  | pending => "pending"
  | in_progress => "in_progress"
  | done => "done"
  | skipped => "skipped"
  | blocked => "blocked"
  end.

Definition formatItemPlain (item : TodoItem) : string :=
  let icon := STATUS_ICONS (status item) in
  let extra :=
    if truthy (reason item)
    then " (" +:+ default "" (reason item) +:+ ")" else "" in
  icon +:+ " #" +:+ pretty (id item) +:+ ": " +:+ text item +:+ extra.

(** The [counts] record of [summaryText]. *)
Record Counts := {
  c_pending : nat;
  c_in_progress : nat;
  c_done : nat;
  c_skipped : nat;
  c_blocked : nat
}.

Definition no_counts : Counts :=
  {| c_pending := 0; c_in_progress := 0; c_done := 0;
     c_skipped := 0; c_blocked := 0 |}.

(** [counts[item.status]++] *)
Definition count_up (counts : Counts) (s : TodoStatus) : Counts :=
  match s with
  | pending =>
      {| c_pending := S (c_pending counts); c_in_progress := c_in_progress counts;
         c_done := c_done counts; c_skipped := c_skipped counts;
         c_blocked := c_blocked counts |}
  | in_progress =>
      {| c_pending := c_pending counts; c_in_progress := S (c_in_progress counts);
         c_done := c_done counts; c_skipped := c_skipped counts;
         c_blocked := c_blocked counts |}
  | done =>
      {| c_pending := c_pending counts; c_in_progress := c_in_progress counts;
         c_done := S (c_done counts); c_skipped := c_skipped counts;
         c_blocked := c_blocked counts |}
  | skipped =>
      {| c_pending := c_pending counts; c_in_progress := c_in_progress counts;
         c_done := c_done counts; c_skipped := S (c_skipped counts);
         c_blocked := c_blocked counts |}
  | blocked =>
      {| c_pending := c_pending counts; c_in_progress := c_in_progress counts;
         c_done := c_done counts; c_skipped := c_skipped counts;
         c_blocked := S (c_blocked counts) |}
  end.

(** [for (const item of items) counts[item.status]++] *)
Definition tally (l : list TodoItem) : Counts :=
  fold_left (fun counts item => count_up counts (status item)) l no_counts.

(** [if (n) parts.push(`${n} label`)]: what one such line adds to [parts]. *)
Definition part (n : nat) (label : string) : list string :=
  if Nat.eqb n 0 then [] else [pretty n +:+ " " +:+ label].

Definition summaryText (l : list TodoItem) : string :=
  let counts := tally l in
  let parts :=
    part (c_done counts) "done" ++
    part (c_in_progress counts) "in progress" ++
    part (c_pending counts) "pending" ++
    part (c_blocked counts) "blocked" ++
    part (c_skipped counts) "skipped" in
  pretty (length l) +:+ " items: " +:+ String.concat ", " parts.

(** ** The tool *)

Record ToolResult := {
  content : string;       (* the text of the single content block *)
  details : TodoDetails
}.

(** [let state: TodoState = { items: [], nextId: 1 }] *)
Definition initial_state : TodoState :=
  {| items := []; nextId := 1; listName := None |}.

Definition makeDetails (state : TodoState) (action : string)
    (error : option string) : TodoDetails :=
  {| action := action;
     snapshot := {| items := items state; nextId := nextId state;
                    listName := listName state |};
     error := error |}.

Definition findItem (state : TodoState) (i : Z) : option TodoItem :=
  List.find (fun it => Z.eqb (id it) i) (items state).

(** In-place update of the object [findItem] returns: the first item of the
    list whose id is [i] is replaced by its image under [f]. *)
Fixpoint update_found (i : Z) (f : TodoItem -> TodoItem) (l : list TodoItem)
    : list TodoItem :=
  match l with
  | [] => []
  | it :: rest =>
      if Z.eqb (id it) i then f it :: rest
      else it :: update_found i f rest
  end.

(** [{ id: state.nextId++, text, status: "pending", group }] followed by
    [state.items.push(item)]: the new state and the item pushed. *)
Definition push_item (state : TodoState) (t : string) (g : option string)
    : TodoState * TodoItem :=
  let item := {| id := nextId state; text := t; status := pending;
                 reason := None; group := g |} in
  ({| items := items state ++ [item]; nextId := nextId state + 1;
      listName := listName state |}, item).

(** The loop of [batch]: the running state and the [added] array. *)
Definition batch_loop (state : TodoState) (entries : list BatchEntry)
    : TodoState * list TodoItem :=
  fold_left
    (fun (acc : TodoState * list TodoItem) entry =>
       let '(st, item) := push_item (fst acc) (e_text entry) (e_group entry) in
       (st, snd acc ++ [item]))
    entries (state, []).

Definition statusMap (a : Action) : option TodoStatus :=
  match a with
  | Start => Some in_progress
  | Done => Some done
  | Skip => Some skipped
  | Block => Some blocked
  | Reset => Some pending
  | _ => None
  end.

(** [item.status = statusMap[params.action]; item.reason = params.reason].
    The assignment is reached with one of the five keys of [statusMap]
    only, so the default is never taken. *)
Definition transition (a : Action) (r : option string) (item : TodoItem)
    : TodoItem :=
  {| id := id item; text := text item;
     status := default (status item) (statusMap a);
     reason := r; group := group item |}.

Definition added_line (i : TodoItem) : string :=
  "  #" +:+ pretty (id i) +:+ ": " +:+ text i.

Definition execute (state : TodoState) (params : TodoToolInput)
    : TodoState * ToolResult :=
  match p_action params with
  | Create =>
      let state := {| items := []; nextId := 1; listName := p_name params |} in
      (state,
       {| content := "Created todo list" +:+
            (if truthy (p_name params)
             then ": " +:+ default "" (p_name params) else "");
          details := makeDetails state "create" None |})
  | Add =>
      if negb (truthy (p_text params)) then
        (state,
         {| content := "Error: text required for add";
            details := makeDetails state "add" (Some "text required") |})
      else
        let '(state, item) :=
          push_item state (default "" (p_text params)) (p_group params) in
        (state,
         {| content := "Added #" +:+ pretty (id item) +:+ ": " +:+ text item;
            details := makeDetails state "add" None |})
  | Batch =>
      match p_items params with
      | None | Some [] =>
          (state,
           {| content := "Error: items array required for batch";
              details := makeDetails state "batch" (Some "items required") |})
      | Some entries =>
          let '(state, added) := batch_loop state entries in
          (state,
           {| content := "Added " +:+ pretty (length added) +:+ " items:" +:+
                newline +:+ String.concat newline (map added_line added);
              details := makeDetails state "batch" None |})
      end
  | (Start | Done | Skip | Block | Reset) as a =>
      match p_id params with
      | None =>
          (state,
           {| content := "Error: id required for " +:+ action_name a;
              details := makeDetails state (action_name a) (Some "id required") |})
      | Some i =>
          match findItem state i with
          | None =>
              (state,
               {| content := "Item #" +:+ pretty i +:+ " not found";
                  details := makeDetails state (action_name a)
                               (Some ("#" +:+ pretty i +:+ " not found")) |})
          | Some item =>
              let item := transition a (p_reason params) item in
              let state :=
                {| items := update_found i (transition a (p_reason params))
                              (items state);
                   nextId := nextId state; listName := listName state |} in
              (state,
               {| content := "#" +:+ pretty (id item) +:+ " → " +:+
                    status_name (status item) +:+
                    (if truthy (reason item)
                     then " (" +:+ default "" (reason item) +:+ ")" else "");
                  details := makeDetails state (action_name a) None |})
          end
      end
  | List =>
      match items state with
      | [] =>
          (state,
           {| content := "No items"; details := makeDetails state "list" None |})
      | _ =>
          let header :=
            if truthy (listName state)
            then default "" (listName state) +:+ newline else "" in
          (state,
           {| content := header +:+
                String.concat newline (map formatItemPlain (items state)) +:+
                newline +:+ newline +:+ summaryText (items state);
              details := makeDetails state "list" None |})
      end
  | Summary =>
      (state,
       {| content := summaryText (items state);
          details := makeDetails state "summary" None |})
  | Clear =>
      let count := length (items state) in
      let state := {| items := []; nextId := 1; listName := listName state |} in
      (state,
       {| content := "Cleared " +:+ pretty count +:+ " items";
          details := makeDetails state "clear" None |})
  | Unknown name =>
      (state,
       {| content := "Unknown action: " +:+ name;
          details := makeDetails state "unknown"
                       (Some ("unknown action: " +:+ name)) |})
  end.

(** A run of calls: the state is carried from one call to the next. *)
Definition replay (requests : list TodoToolInput) (state : TodoState)
    : TodoState :=
  fold_left (fun st params => fst (execute st params)) requests state.

(** The items a call creates: the [item] of [add], the [added] array of
    [batch]; no other action creates an item. *)
Definition created (state : TodoState) (params : TodoToolInput)
    : list TodoItem :=
  match p_action params with
  | Add =>
      if negb (truthy (p_text params)) then []
      else [snd (push_item state (default "" (p_text params)) (p_group params))]
  | Batch =>
      match p_items params with
      | None | Some [] => []
      | Some entries => snd (batch_loop state entries)
      end
  | _ => []
  end.

(** The ids assigned along a run of calls, in the order of assignment. *)
Fixpoint assigned (state : TodoState) (requests : list TodoToolInput)
    : list Z :=
  match requests with
  | [] => []
  | params :: rest =>
      map id (created state params) ++ assigned (fst (execute state params)) rest
  end.

(** ** The session log, as [reconstructState] reads it *)

Inductive AgentMessage (D : Type) :=
  | toolResult (toolName : string) (details : option D)
  | otherMessage (role : string).

Inductive SessionEntry (D : Type) :=
  | message (msg : AgentMessage D)
  | otherEntry (type : string).

Arguments toolResult {D} toolName details.
Arguments otherMessage {D} role.
Arguments message {D} msg.
Arguments otherEntry {D} type.

(** The entry is a tool result of the tool named [todo]. *)
Definition of_tracker {D} (entry : SessionEntry D) : bool :=
  match entry with
  | message (toolResult toolName _) => String.eqb toolName "todo"
  | _ => false
  end.

(** One pass of the loop of [reconstructState]. *)
Definition retain (state : TodoState) (entry : SessionEntry TodoDetails)
    : TodoState :=
  match entry with
  | message (toolResult toolName (Some details)) =>
      if String.eqb toolName "todo" then
        {| items := items (snapshot details);
           nextId := nextId (snapshot details);
           listName := listName (snapshot details) |}
      else state
  | _ => state
  end.

Definition reconstructState (branch : list (SessionEntry TodoDetails))
    : TodoState :=
  fold_left retain branch {| items := []; nextId := 1; listName := None |}.

(** What stands on a branch of the session: the record of a call of the
    tool (the request and the result the tool returned), or an entry that
    is not of this tool. *)
Inductive ActionRecord (R : Type) (D : Type) :=
  | Recorded (request : TodoToolInput) (result : R)
  | Unrelated (entry : SessionEntry D).

Arguments Recorded {R D} request result.
Arguments Unrelated {R D} entry.

Definition requests_of {R D} (path : list (ActionRecord R D))
    : list TodoToolInput :=
  omap (fun rec => match rec with
                   | Recorded request _ => Some request
                   | Unrelated _ => None
                   end) path.

Definition entry_of (rec : ActionRecord ToolResult TodoDetails)
    : SessionEntry TodoDetails :=
  match rec with
  | Recorded _ result => message (toolResult "todo" (Some (details result)))
  | Unrelated entry => entry
  end.

(** [ctx.sessionManager.getBranch()] *)
Definition getBranch (path : list (ActionRecord ToolResult TodoDetails))
    : list (SessionEntry TodoDetails) :=
  map entry_of path.


(** ** Definitions that follow the words of the specification *)

(** The number of items of a list that have a given status. *)
Definition count_status (s : TodoStatus) (l : list TodoItem) : nat :=
  length (filter (fun it => status it = s) l).

(** The fixed order of the summary line, each status with its rendering. *)
Definition summary_order : list (TodoStatus * string) :=
  [(done, "done"); (in_progress, "in progress"); (pending, "pending");
   (blocked, "blocked"); (skipped, "skipped")].

(** The summary line as the specification words it: the total, then the
    counts of the statuses that occur, in the fixed order. *)
Definition spec_summary (l : list TodoItem) : string :=
  pretty (length l) +:+ " items: " +:+
  String.concat ", "
    (map (fun p : TodoStatus * string =>
            pretty (count_status (fst p) l) +:+ " " +:+ snd p)
       (filter (fun p : TodoStatus * string => count_status (fst p) l <> 0%nat)
          summary_order)).

(** The failure conditions of the table of operations: [add] without a
    text or with an empty one, [batch] without a list or with an empty one,
    a status action without an id or with an id no item has, and an action
    outside the enumeration. *)
Definition spec_fails (state : TodoState) (params : TodoToolInput) : bool :=
  match p_action params with
  | Add =>
      match p_text params with
      | None => true
      | Some t => bool_decide (t = "")
      end
  | Batch =>
      match p_items params with
      | None => true
      | Some l => bool_decide (l = [])
      end
  | Start | Done | Skip | Block | Reset =>
      match p_id params with
      | None => true
      | Some i => bool_decide (Forall (fun it => id it <> i) (items state))
      end
  | Unknown _ => true
  | Create | List | Summary | Clear => false
  end.

(** The two error kinds of the specification, read on the [error] string
    of the details: a required field is missing, or no item has the id. *)
Definition ValidationError (e : string) : Prop :=
  e = "text required" \/ e = "items required" \/ e = "id required".

Definition NotFoundError (i : Z) (e : string) : Prop :=
  e = "#" +:+ pretty i +:+ " not found".

(** The details carry an error: [if (details.error)]. *)
Definition has_error (d : TodoDetails) : bool := truthy (error d).

(** At every moment the ids of the items of the list are strictly
    increasing, hence distinct, and below [nextId]. *)
Definition ids_ordered (state : TodoState) : Prop :=
  StronglySorted Z.lt (map id (items state)) /\
  Forall (fun i => i < nextId state) (map id (items state)).

(** The states a run of successful calls reaches from the initial state. *)
Inductive reachable : TodoState -> Prop :=
  | reachable_initial : reachable initial_state
  | reachable_step state params :
      reachable state ->
      has_error (details (snd (execute state params))) = false ->
      reachable (fst (execute state params)).

(** ** The same code with object identity *)

Module Shared.

(** The address of an object or of an array in the store. *)
Abbreviation ref := nat (only parsing).

(** The store: the item objects and the arrays of item references that the
    tool has created, by address.  A [TodoItem] object holds numbers and
    strings only, so its fields are values. *)
Record Store := {
  objects : list TodoItem;
  arrays : list (list ref)
}.

Definition empty_store : Store := {| objects := []; arrays := [] |}.

(** [items] is a reference to an array of references to item objects. *)
Record TodoState := {
  items : ref;
  nextId : Z;
  listName : option string
}.

Record TodoDetails := {
  action : string;
  snapshot : TodoState;
  error : option string
}.

Record ToolResult := {
  content : string;
  details : TodoDetails
}.

(** A new array and a new object take the next free address. *)
Definition new_array (h : Store) (l : list ref) : Store * ref :=
  ({| objects := objects h; arrays := arrays h ++ [l] |}, length (arrays h)).

Definition new_object (h : Store) (item : TodoItem) : Store * ref :=
  ({| objects := objects h ++ [item]; arrays := arrays h |},
   length (objects h)).

Definition read_array (h : Store) (a : ref) : list ref :=
  default [] (arrays h !! a).

Definition write_array (h : Store) (a : ref) (l : list ref) : Store :=
  {| objects := objects h; arrays := <[a := l]> (arrays h) |}.

Definition write_object (h : Store) (r : ref) (item : TodoItem) : Store :=
  {| objects := <[r := item]> (objects h); arrays := arrays h |}.

(** The elements of an array, each reference with the object it names. *)
Definition elements (h : Store) (a : ref) : list (ref * TodoItem) :=
  omap (fun r => pair r <$> objects h !! r) (read_array h a).

(** The items an array holds at present. *)
Definition contents (h : Store) (a : ref) : list TodoItem :=
  map snd (elements h a).

(** [items: [...state.items]] is a new array with the same references: the
    array is copied, the item objects are not. *)
Definition makeDetails (h : Store) (state : TodoState) (action : string)
    (error : option string) : Store * TodoDetails :=
  let '(h, copy) := new_array h (read_array h (items state)) in
  (h, {| action := action;
         snapshot := {| items := copy; nextId := nextId state;
                        listName := listName state |};
         error := error |}).

Definition findItem (h : Store) (state : TodoState) (i : Z)
    : option (ref * TodoItem) :=
  List.find (fun e : ref * TodoItem => Z.eqb (id (snd e)) i)
    (elements h (items state)).

(** [return { content: [{ type: "text", text }], details: makeDetails(..) }] *)
Definition reply (h : Store) (state : TodoState) (text : string)
    (action : string) (error : option string)
    : Store * TodoState * ToolResult :=
  let '(h, d) := makeDetails h state action error in
  (h, state, {| content := text; details := d |}).

(** A new item object, then [state.items.push(item)] on the array the state
    refers to.  The item is returned for the text of the reply; [added] of
    [batch] is read before any of its items is written again. *)
Definition push_item (h : Store) (state : TodoState) (t : string)
    (g : option string) : Store * TodoState * TodoItem :=
  let item := {| id := nextId state; text := t; status := pending;
                 reason := None; group := g |} in
  let '(h, r) := new_object h item in
  let h := write_array h (items state) (read_array h (items state) ++ [r]) in
  (h, {| items := items state; nextId := nextId state + 1;
         listName := listName state |}, item).

Definition batch_loop (h : Store) (state : TodoState)
    (entries : list BatchEntry) : Store * TodoState * list TodoItem :=
  fold_left
    (fun (acc : Store * TodoState * list TodoItem) entry =>
       let '(h, st, added) := acc in
       let '(h, st, item) := push_item h st (e_text entry) (e_group entry) in
       (h, st, added ++ [item]))
    entries (h, state, []).

Definition execute (h : Store) (state : TodoState) (params : TodoToolInput)
    : Store * TodoState * ToolResult :=
  match p_action params with
  | Create =>
      let '(h, a) := new_array h [] in
      let state := {| items := a; nextId := 1; listName := p_name params |} in
      reply h state
        ("Created todo list" +:+
           (if truthy (p_name params)
            then ": " +:+ default "" (p_name params) else ""))
        "create" None
  | Add =>
      if negb (truthy (p_text params)) then
        reply h state "Error: text required for add" "add"
          (Some "text required")
      else
        let '(h, state, item) :=
          push_item h state (default "" (p_text params)) (p_group params) in
        reply h state
          ("Added #" +:+ pretty (id item) +:+ ": " +:+ text item)
          "add" None
  | Batch =>
      match p_items params with
      | None | Some [] =>
          reply h state "Error: items array required for batch" "batch"
            (Some "items required")
      | Some entries =>
          let '(h, state, added) := batch_loop h state entries in
          reply h state
            ("Added " +:+ pretty (length added) +:+ " items:" +:+ newline +:+
               String.concat newline (map added_line added))
            "batch" None
      end
  | (Start | Done | Skip | Block | Reset) as a =>
      match p_id params with
      | None =>
          reply h state ("Error: id required for " +:+ action_name a)
            (action_name a) (Some "id required")
      | Some i =>
          match findItem h state i with
          | None =>
              reply h state ("Item #" +:+ pretty i +:+ " not found")
                (action_name a) (Some ("#" +:+ pretty i +:+ " not found"))
          | Some (r, item) =>
              let item := transition a (p_reason params) item in
              let h := write_object h r item in
              reply h state
                ("#" +:+ pretty (id item) +:+ " → " +:+
                   status_name (status item) +:+
                   (if truthy (reason item)
                    then " (" +:+ default "" (reason item) +:+ ")" else ""))
                (action_name a) None
          end
      end
  | List =>
      match contents h (items state) with
      | [] => reply h state "No items" "list" None
      | l =>
          let header :=
            if truthy (listName state)
            then default "" (listName state) +:+ newline else "" in
          reply h state
            (header +:+ String.concat newline (map formatItemPlain l) +:+
               newline +:+ newline +:+ summaryText l)
            "list" None
      end
  | Summary =>
      reply h state (summaryText (contents h (items state))) "summary" None
  | Clear =>
      let count := length (contents h (items state)) in
      let '(h, a) := new_array h [] in
      let state := {| items := a; nextId := 1; listName := listName state |} in
      reply h state ("Cleared " +:+ pretty count +:+ " items") "clear" None
  | Unknown name =>
      reply h state ("Unknown action: " +:+ name) "unknown"
        (Some ("unknown action: " +:+ name))
  end.

(** One pass of the loop of [reconstructState]: the state takes the array
    of the record itself, not a copy of it. *)
Definition retain (state : TodoState) (entry : SessionEntry TodoDetails)
    : TodoState :=
  match entry with
  | message (toolResult toolName (Some details)) =>
      if String.eqb toolName "todo" then
        {| items := items (snapshot details);
           nextId := nextId (snapshot details);
           listName := listName (snapshot details) |}
      else state
  | _ => state
  end.

Definition reconstructState (h : Store)
    (branch : list (SessionEntry TodoDetails)) : Store * TodoState :=
  let '(h, a) := new_array h [] in
  (h, fold_left retain branch {| items := a; nextId := 1; listName := None |}).

(** *** A session in one process

    The session log keeps the details object the tool returned, as it was
    handed over: by reference.  [path] is the active branch, from the root
    of the session to its tip. *)
Record Session := {
  store : Store;
  state : TodoState;
  path : list (ActionRecord ToolResult TodoDetails)
}.

Definition entry_of (rec : ActionRecord ToolResult TodoDetails)
    : SessionEntry TodoDetails :=
  match rec with
  | Recorded _ result => message (toolResult "todo" (Some (details result)))
  | Unrelated entry => entry
  end.

Definition getBranch (s : Session) : list (SessionEntry TodoDetails) :=
  map entry_of (path s).

(** The extension is loaded on an empty session:
    [let state = { items: [], nextId: 1 }]. *)
Definition start : Session :=
  let '(h, a) := new_array empty_store [] in
  {| store := h;
     state := {| items := a; nextId := 1; listName := None |};
     path := [] |}.

(** What happens in a session. *)
Inductive Event :=
  | Call (params : TodoToolInput)     (* the tool is called; the log owner
                                         appends the result to the branch *)
  | Foreign (entry : SessionEntry TodoDetails)
                                      (* an entry of another kind is appended *)
  | Reattach                          (* [session_start], [session_switch], ...
                                         with the tip where it is *)
  | Navigate (n : nat).               (* [session_tree]: the tip moves back to
                                         the [n]-th entry of the branch *)

Definition rebuild (s : Session) : Session :=
  let '(h, st) := reconstructState (store s) (getBranch s) in
  {| store := h; state := st; path := path s |}.

Definition step (s : Session) (e : Event) : Session :=
  match e with
  | Call params =>
      let '(h, st, result) := execute (store s) (state s) params in
      {| store := h; state := st; path := path s ++ [Recorded params result] |}
  | Foreign entry =>
      {| store := store s; state := state s;
         path := path s ++ [Unrelated entry] |}
  | Reattach => rebuild s
  | Navigate n =>
      rebuild {| store := store s; state := state s; path := take n (path s) |}
  end.

Definition run (events : list Event) : Session := fold_left step events start.

(** An event of a session that only grows: no move of the tip, and no
    foreign entry under the name of the tool. *)
Definition forward (e : Event) : bool :=
  match e with
  | Call _ | Reattach => true
  | Foreign entry => negb (of_tracker entry)
  | Navigate _ => false
  end.

End Shared.

(** The state by value: what the store holds for it at present. *)
Definition view (h : Shared.Store) (state : Shared.TodoState) : TodoState :=
  {| items := Shared.contents h (Shared.items state);
     nextId := Shared.nextId state;
     listName := Shared.listName state |}.

Definition view_details (h : Shared.Store) (d : Shared.TodoDetails)
    : TodoDetails :=
  {| action := Shared.action d;
     snapshot := view h (Shared.snapshot d);
     error := Shared.error d |}.

(** The state [reconstructState] rebuilds on the branch of a session. *)
Definition rebuilt (s : Shared.Session) : TodoState :=
  let '(h, st) := Shared.reconstructState (Shared.store s) (Shared.getBranch s) in
  view h st.

(** What the store must satisfy for the two readings to agree: an array
    holds no object twice, and holds objects of the store only; a state
    refers to an array of the store. *)
Definition valid (objs : list TodoItem) (l : list Shared.ref) : Prop :=
  NoDup l /\ Forall (fun r => (r < length objs)%nat) l.

Definition store_ok (h : Shared.Store) : Prop :=
  Forall (valid (Shared.objects h)) (Shared.arrays h).

Definition state_ok (h : Shared.Store) (state : Shared.TodoState) : Prop :=
  (Shared.items state < length (Shared.arrays h))%nat.

(** A result of the code read with object identity agrees with a result of
    the code read by value: the states, the texts and the details are the
    same once the store is read, and the store is still well formed. *)
Definition agrees (res : Shared.Store * Shared.TodoState * Shared.ToolResult)
    (pure : TodoState * ToolResult) : Prop :=
  view (fst (fst res)) (snd (fst res)) = fst pure /\
  Shared.content (snd res) = content (snd pure) /\
  view_details (fst (fst res)) (Shared.details (snd res))
    = details (snd pure) /\
  store_ok (fst (fst res)) /\
  state_ok (fst (fst res)) (snd (fst res)) /\
  state_ok (fst (fst res)) (Shared.snapshot (Shared.details (snd res))).

(** The snapshot of the last record of the tool on a branch, if any. *)
Definition last_snapshot (branch : list (SessionEntry Shared.TodoDetails))
    : option Shared.TodoState :=
  fold_left
    (fun acc entry =>
       match entry with
       | message (toolResult toolName (Some details)) =>
           if String.eqb toolName "todo"
           then Some (Shared.snapshot details) else acc
       | _ => acc
       end) branch None.

(** What holds of a session that only grows: the store is well formed, the
    state shows what the calls recorded on the branch compute by value, and
    the last record of the tool on the branch shows the same. *)
Definition session_ok (s : Shared.Session) : Prop :=
  store_ok (Shared.store s) /\
  state_ok (Shared.store s) (Shared.state s) /\
  view (Shared.store s) (Shared.state s)
    = replay (requests_of (Shared.path s)) initial_state /\
  match last_snapshot (Shared.getBranch s) with
  | Some snap =>
      state_ok (Shared.store s) snap /\
      view (Shared.store s) snap = view (Shared.store s) (Shared.state s)
  | None => view (Shared.store s) (Shared.state s) = initial_state
  end.

(** What holds of every session, also when the tip has moved back: the
    store is well formed, and the state and the records of the branch refer
    to arrays of the store.  [plain] events exclude only a foreign entry
    that poses as a result of the tool. *)
Definition record_ok (h : Shared.Store)
    (rec : ActionRecord Shared.ToolResult Shared.TodoDetails) : Prop :=
  match rec with
  | Recorded _ result =>
      state_ok h (Shared.snapshot (Shared.details result))
  | Unrelated entry => of_tracker entry = false
  end.

Definition session_wf (s : Shared.Session) : Prop :=
  store_ok (Shared.store s) /\
  state_ok (Shared.store s) (Shared.state s) /\
  Forall (record_ok (Shared.store s)) (Shared.path s).

Definition plain (e : Shared.Event) : bool :=
  match e with
  | Shared.Foreign entry => negb (of_tracker entry)
  | _ => true
  end.

(** ** Requests used in the examples *)

Definition request (a : Action) : TodoToolInput :=
  {| p_action := a; p_name := None; p_text := None; p_items := None;
     p_id := None; p_reason := None; p_group := None |}.

Definition create_request (name : string) : TodoToolInput :=
  {| p_action := Create; p_name := Some name; p_text := None; p_items := None;
     p_id := None; p_reason := None; p_group := None |}.

Definition add_request (t : string) : TodoToolInput :=
  {| p_action := Add; p_name := None; p_text := Some t; p_items := None;
     p_id := None; p_reason := None; p_group := None |}.

Definition batch_request (entries : list BatchEntry) : TodoToolInput :=
  {| p_action := Batch; p_name := None; p_text := None;
     p_items := Some entries; p_id := None; p_reason := None;
     p_group := None |}.

Definition status_request (a : Action) (i : Z) (r : option string)
    : TodoToolInput :=
  {| p_action := a; p_name := None; p_text := None; p_items := None;
     p_id := Some i; p_reason := r; p_group := None |}.

Definition entry (t : string) : BatchEntry :=
  {| e_text := t; e_group := None |}.

(** A list of one pending item with id 1, as [add] leaves it. *)
Definition one_item_state : TodoState :=
  fst (execute initial_state (add_request "write login test")).

(** ** Rendering of results *)

(** The part of the theme of the host that the code uses. *)
Record Theme := {
  fg : string -> string -> string;    (* [theme.fg(color, text)] *)
  bold : string -> string
}.

Definition statusColor (s : TodoStatus) (theme : Theme) : string -> string :=
  match s with
  | pending => fun t => fg theme "dim" t
  | in_progress => fun t => fg theme "warning" t
  | done => fun t => fg theme "success" t
  | skipped => fun t => fg theme "muted" t
  | blocked => fun t => fg theme "error" t
  end.

Definition formatItem (item : TodoItem) (theme : Theme) : string :=
  let color := statusColor (status item) theme in
  let icon := color (STATUS_ICONS (status item)) in
  let id_ := fg theme "accent" ("#" +:+ pretty (id item)) in
  let text_ :=
    match status item with
    | done | skipped => fg theme "dim" (text item)
    | _ => text item
    end in
  let extra :=
    if truthy (reason item)
    then fg theme "dim" (" (" +:+ default "" (reason item) +:+ ")") else "" in
  icon +:+ " " +:+ id_ +:+ " " +:+ text_ +:+ extra.

(** [text.split("\n")[0]]: the text up to its first line break. *)
Fixpoint first_line (s : string) : string :=
  match s with
  | EmptyString => EmptyString
  | String c rest =>
      if Ascii.eqb c (Ascii.ascii_of_nat 10) then EmptyString
      else String c (first_line rest)
  end.

(** [items.slice(-n)]: the last [n] elements. *)
Definition slice_last {A} (n : nat) (l : list A) : list A :=
  drop (length l - n) l.

(** [renderResult(result, { expanded }, theme)].  [content0] is the text of
    [result.content[0]] when it is a text block, [details] is
    [result.details]; the [Text] component built has no padding and is
    given by its text. *)
Definition renderResult (content0 : option string)
    (details : option TodoDetails) (expanded : bool) (theme : Theme)
    : string :=
  match details with
  | None => default "" content0
  | Some details =>
      if truthy (error details) then
        fg theme "error" ("Error: " +:+ default "" (error details))
      else
        let items := items (snapshot details) in
        let a := action details in
        if String.eqb a "create" then
          fg theme "success" "✓ " +:+
          fg theme "muted"
            ("Created" +:+
             (if truthy (listName (snapshot details))
              then ": " +:+ default "" (listName (snapshot details)) else ""))
        else if String.eqb a "add" || String.eqb a "batch" then
          let text :=
            fg theme "success" "✓ " +:+
            fg theme "muted"
              (match content0 with
               | Some t => first_line t
               | None => "Added"
               end) in
          if expanded && negb (Nat.eqb (length items) 0) then
            text +:+ newline +:+
            String.concat newline
              (map (fun i => "  " +:+ formatItem i theme) (slice_last 5 items))
          else text
        else if String.eqb a "start" || String.eqb a "done" ||
                String.eqb a "skip" || String.eqb a "block" ||
                String.eqb a "reset" then
          fg theme "success" "✓ " +:+ fg theme "muted" (default "" content0)
        else if String.eqb a "list" then
          if Nat.eqb (length items) 0 then fg theme "dim" "No items"
          else
            let text := fg theme "muted" (summaryText items) in
            let display := if expanded then items else take 8 items in
            let text :=
              fold_left
                (fun text item =>
                   text +:+ newline +:+ "  " +:+ formatItem item theme)
                display text in
            if negb expanded && Nat.ltb 8 (length items) then
              text +:+ newline +:+ "  " +:+
              fg theme "dim"
                ("... " +:+ pretty (length items - 8)%nat +:+ " more")
            else text
        else if String.eqb a "summary" then
          fg theme "muted" (summaryText items)
        else if String.eqb a "clear" then
          fg theme "success" "✓ " +:+ fg theme "muted" "Cleared all items"
        else fg theme "dim" (default "" content0)
  end.

(** The rendering of a result as [execute] returns it. *)
Definition shown (result : ToolResult) (expanded : bool) (theme : Theme)
    : string :=
  renderResult (Some (content result)) (Some (details result)) expanded theme.

(** ** The component of the [/todos] command *)

Module TodoListComponent.

(** The fields of the component; the theme and the external functions it
    calls are arguments of [render]. *)
Record t := {
  items : list TodoItem;
  listName : option string;
  cachedWidth : option Z;
  cachedLines : option (list string)
}.

(** [new TodoListComponent(items, listName, theme, onClose)] *)
Definition new (items : list TodoItem) (listName : option string) : t :=
  {| items := items; listName := listName;
     cachedWidth := None; cachedLines := None |}.

(** The [Map] of [render], with its keys in the order of insertion. *)
Definition has (groups : list (string * list TodoItem)) (g : string) : bool :=
  existsb (fun e => String.eqb (fst e) g) groups.

Definition get (groups : list (string * list TodoItem)) (g : string)
    : list TodoItem :=
  match List.find (fun e => String.eqb (fst e) g) groups with
  | Some e => snd e
  | None => []
  end.

Definition set (groups : list (string * list TodoItem)) (g : string)
    (l : list TodoItem) : list (string * list TodoItem) :=
  if has groups g
  then map (fun e => if String.eqb (fst e) g then (g, l) else e) groups
  else groups ++ [(g, l)].

(** [item.group || ""] *)
Definition group_key (item : TodoItem) : string :=
  if truthy (group item) then default "" (group item) else "".

(** The loop that groups the items: a new key gets an empty array, and the
    item is pushed to the array of its key. *)
Definition group_items (l : list TodoItem) : list (string * list TodoItem) :=
  fold_left
    (fun groups item =>
       let g := group_key item in
       let groups := if has groups g then groups else set groups g [] in
       set groups g (get groups g ++ [item]))
    l [].

(** The keys of a list in the order in which they are first seen. *)
Fixpoint first_seen (keys : list string) : list string :=
  match keys with
  | [] => []
  | k :: rest => k :: filter (fun k' => k' <> k) (first_seen rest)
  end.

(** [s.repeat(n)] *)
Fixpoint repeat_string (s : string) (n : nat) : string :=
  match n with
  | O => ""
  | S n => s +:+ repeat_string s n
  end.

Section Render.

Variable theme : Theme.
(** [truncateToWidth] of the terminal library, and the length of a string
    as JavaScript counts it. *)
Variable truncateToWidth : string -> Z -> string.
Variable js_length : string -> Z.

(** The lines [render] computes when the cache does not answer. *)
Definition layout (c : t) (width : Z) : list string :=
  let title :=
    fg theme "accent"
      (" " +:+ (if truthy (listName c) then default "" (listName c)
                else "Todos") +:+ " ") in
  let headerLine :=
    fg theme "borderMuted" (repeat_string "─" 3) +:+ title +:+
    fg theme "borderMuted"
      (repeat_string "─"
         (Z.to_nat
            (Z.max 0
               (width -
                match listName c with
                | Some name => js_length name
                | None => 5
                end - 8)))) in
  [""; truncateToWidth headerLine width; ""] ++
  (if Nat.eqb (length (items c)) 0 then
     [truncateToWidth ("  " +:+ fg theme "dim" "No items yet.") width]
   else
     [truncateToWidth ("  " +:+ fg theme "muted" (summaryText (items c))) width;
      ""] ++
     flat_map
       (fun e : string * list TodoItem =>
          let named := negb (String.eqb (fst e) "") in
          (if named
           then [truncateToWidth
                   ("  " +:+ fg theme "accent" (bold theme (fst e))) width]
           else []) ++
          map (fun item =>
                 truncateToWidth ("  " +:+ formatItem item theme) width)
              (snd e) ++
          (if named then [""] else []))
       (group_items (items c))) ++
  [""; truncateToWidth ("  " +:+ fg theme "dim" "Press Escape to close") width;
   ""].

Definition render (c : t) (width : Z) : list string * t :=
  match cachedLines c, cachedWidth c with
  | Some lines, Some w =>
      if Z.eqb w width then (lines, c)
      else
        let lines := layout c width in
        (lines, {| items := items c; listName := listName c;
                   cachedWidth := Some width; cachedLines := Some lines |})
  | _, _ =>
      let lines := layout c width in
      (lines, {| items := items c; listName := listName c;
                 cachedWidth := Some width; cachedLines := Some lines |})
  end.

Definition invalidate (c : t) : t :=
  {| items := items c; listName := listName c;
     cachedWidth := None; cachedLines := None |}.

(** What is done to a component while it is shown. *)
Inductive Op :=
  | Render (width : Z)
  | Invalidate.

Definition apply_op (c : t) (op : Op) : t :=
  match op with
  | Render width => snd (render c width)
  | Invalidate => invalidate c
  end.

End Render.

End TodoListComponent.

(** ** The [prompt_user] tool *)

Module PromptUser.

Inductive PromptType := select | confirm | input.

Definition type_name (t : PromptType) : string :=
  match t with
  | select => "select"
  | confirm => "confirm"
  | input => "input"
  end.

(** [PromptUserParams] *)
Record Params := {
  p_question : string;
  p_type : PromptType;
  p_options : option (list string);
  p_placeholder : option string
}.

Record PromptUserDetails := {
  question : string;
  type : PromptType;
  options : option (list string);
  answer : option string;      (* [string | null] *)
  cancelled : bool
}.

Record ToolResult := {
  content : string;
  details : PromptUserDetails
}.

(** The dialogs of [ctx.ui], as the answers the user gives: [None] is
    [undefined], a dialog that was dismissed. *)
Record UI := {
  ui_select : string -> list string -> option string;
  ui_confirm : string -> string -> bool;
  ui_input : string -> string -> option string
}.

(** [execute] either returns at once or waits for one dialog. *)
Inductive Step :=
  | Return (result : ToolResult)
  | Select (title : string) (options : list string)
           (resume : option string -> ToolResult)
  | Confirm (title msg : string) (resume : bool -> ToolResult)
  | Input (title placeholder : string)
          (resume : option string -> ToolResult).

(** The end of [execute], after the [switch]. *)
Definition finish (params : Params) (answer : option string)
    (cancelled : bool) : ToolResult :=
  let details :=
    {| question := p_question params; type := p_type params;
       options := p_options params; answer := answer;
       cancelled := cancelled |} in
  if cancelled then
    {| content := "User cancelled / dismissed the prompt"; details := details |}
  else
    {| content := "User responded: " +:+ default "null" answer;
       details := details |}.

(** What the two dialogs that can be dismissed leave in [answer] and
    [cancelled]. *)
Definition answered (params : Params) (result : option string) : ToolResult :=
  match result with
  | None => finish params None true
  | Some r => finish params (Some r) false
  end.

Definition execute (hasUI : bool) (params : Params) : Step :=
  if negb hasUI then
    Return
      {| content := "Error: no UI available (non-interactive mode)";
         details :=
           {| question := p_question params; type := p_type params;
              options := p_options params; answer := None;
              cancelled := true |} |}
  else
    match p_type params with
    | select =>
        let options := default [] (p_options params) in
        if Nat.eqb (length options) 0 then
          Return
            {| content := "Error: 'select' type requires options array";
               details :=
                 {| question := p_question params; type := select;
                    options := Some []; answer := None;
                    cancelled := true |} |}
        else Select (p_question params) options (answered params)
    | confirm =>
        Confirm "Question" (p_question params)
          (fun result =>
             finish params (Some (if result then "yes" else "no")) false)
    | input =>
        Input (p_question params) (default "" (p_placeholder params))
          (answered params)
    end.

(** The result of [execute] once the user has answered. *)
Definition complete (ui : UI) (s : Step) : ToolResult :=
  match s with
  | Return result => result
  | Select title options resume => resume (ui_select ui title options)
  | Confirm title msg resume => resume (ui_confirm ui title msg)
  | Input title placeholder resume => resume (ui_input ui title placeholder)
  end.

Definition dquote : string := String (Ascii.ascii_of_nat 34) EmptyString.

Definition renderResult (content0 : option string)
    (details : option PromptUserDetails) (theme : Theme) : string :=
  match details with
  | None => default "" content0
  | Some details =>
      if cancelled details then fg theme "warning" "✗ Cancelled"
      else
        let icon := fg theme "success" "✓ " in
        match type details with
        | confirm =>
            icon +:+
            fg theme "accent"
              (match answer details with
               | Some a => if String.eqb a "yes" then "Yes" else "No"
               | None => "No"
               end)
        | select => icon +:+ fg theme "accent" (default "" (answer details))
        | input =>
            icon +:+ fg theme "muted" dquote +:+
            fg theme "accent" (default "" (answer details)) +:+
            fg theme "muted" dquote
        end
  end.

Definition shown (result : ToolResult) (theme : Theme) : string :=
  renderResult (Some (content result)) (Some (details result)) theme.

End PromptUser.

(** The entry carries a snapshot that [reconstructState] retains. *)
Definition has_snapshot {D} (entry : SessionEntry D) : bool :=
  match entry with
  | message (toolResult toolName (Some _)) => String.eqb toolName "todo"
  | _ => false
  end.

(** * Properties *)

(** ** The summary line *)

Section Tally.

Local Open Scope nat_scope.

Lemma tally_from (l : list TodoItem) (c : Counts) :
  let t := fold_left (fun counts item => count_up counts (status item)) l c in
  c_pending t = c_pending c + count_status pending l /\
  c_in_progress t = c_in_progress c + count_status in_progress l /\
  c_done t = c_done c + count_status done l /\
  c_skipped t = c_skipped c + count_status skipped l /\
  c_blocked t = c_blocked c + count_status blocked l.
Proof.
  revert c. induction l as [|item l IH]; intros c.
  - cbn. unfold count_status. cbn. repeat split; lia.
  - cbn [fold_left]. specialize (IH (count_up c (status item))).
    cbv zeta in IH |- *.
    destruct IH as (Hp & Hi & Hd & Hs & Hb).
    rewrite Hp, Hi, Hd, Hs, Hb. clear Hp Hi Hd Hs Hb.
    unfold count_status. rewrite !filter_cons.
    destruct item as [i t s r g]; destruct s; cbn;
      repeat case_decide; try discriminate; try congruence;
      cbn; repeat split; lia.
Qed.

Lemma tally_counts (l : list TodoItem) :
  tally l =
  {| c_pending := count_status pending l;
     c_in_progress := count_status in_progress l;
     c_done := count_status done l;
     c_skipped := count_status skipped l;
     c_blocked := count_status blocked l |}.
Proof.
  pose proof (tally_from l no_counts) as H. cbv zeta in H.
  fold (tally l) in H. destruct (tally l) as [p i d s b].
  cbn in H. destruct H as (-> & -> & -> & -> & ->). reflexivity.
Qed.

Lemma count_status_perm (s : TodoStatus) (l l' : list TodoItem) :
  Permutation l l' -> count_status s l = count_status s l'.
Proof.
  intros H. unfold count_status. apply Permutation_length.
  now rewrite H.
Qed.

Lemma summaryText_perm (l l' : list TodoItem) :
  Permutation l l' -> summaryText l' = summaryText l.
Proof.
  intros H. unfold summaryText. rewrite !tally_counts.
  rewrite (Permutation_length H).
  now rewrite !(fun s => count_status_perm s _ _ H).
Qed.

Lemma summaryText_spec (l : list TodoItem) : summaryText l = spec_summary l.
Proof.
  unfold summaryText, spec_summary. rewrite tally_counts. cbn [c_done
    c_in_progress c_pending c_blocked c_skipped].
  f_equal. f_equal. f_equal.
  unfold summary_order, part. rewrite !filter_cons, filter_nil.
  cbn [fst snd].
  destruct (Nat.eqb_spec (count_status done l) 0),
    (Nat.eqb_spec (count_status in_progress l) 0),
    (Nat.eqb_spec (count_status pending l) 0),
    (Nat.eqb_spec (count_status blocked l) 0),
    (Nat.eqb_spec (count_status skipped l) 0);
    repeat case_decide; try contradiction; reflexivity.
Qed.

End Tally.

(** C8: for every list of items the summary line is the total, the text
    [" items: "], and then the counts of done, in progress, pending, blocked
    and skipped items in this order, joined by [", "], a status with count
    zero being left out; the line does not depend on the order in which the
    items were inserted. *)
Theorem summary_line_fixed_order (l : list TodoItem) :
  summaryText l = spec_summary l /\
  (forall l', Permutation l l' -> summaryText l' = summaryText l).
Proof.
  split.
  - apply summaryText_spec.
  - intros l'. apply summaryText_perm.
Qed.

Lemma summary_line_fixed_order_witness :
  let a := {| id := 1; text := "a"; status := skipped; reason := None;
              group := None |} in
  let b := {| id := 2; text := "b"; status := done; reason := None;
              group := None |} in
  let c := {| id := 3; text := "c"; status := pending; reason := None;
              group := None |} in
  summaryText [c; b; a] = summaryText [a; b; c] /\
  summaryText [a; b; c] = "3 items: 1 done, 1 pending, 1 skipped".
Proof.
  intros a b c. split.
  - apply (proj2 (summary_line_fixed_order [a; b; c])).
    apply Permutation_rev.
  - reflexivity.
Defined.

(** C10: the summary line of the empty list is ["0 items: "], the total and
    the separator with nothing after it, and this is the text the [summary]
    action returns when the state has no item. *)
Theorem summary_of_no_items :
  summaryText [] = "0 items: " /\
  (forall state params,
      p_action params = Summary -> items state = [] ->
      content (snd (execute state params)) = "0 items: ").
Proof.
  split; [reflexivity|].
  intros state params Ha Hi. unfold execute. rewrite Ha. cbn. now rewrite Hi.
Qed.

Lemma summary_of_no_items_witness :
  content (snd (execute initial_state (request Summary))) = "0 items: ".
Proof.
  apply (proj2 summary_of_no_items initial_state (request Summary));
    reflexivity.
Defined.

(** ** [clear] *)

(** C2, as the code has it: [clear] empties [items], keeps [listName], sets
    [nextId] back to 1 and never reports an error. *)
Theorem clear_restarts (state : TodoState) (params : TodoToolInput) :
  p_action params = Clear ->
  let r := execute state params in
  items (fst r) = [] /\
  nextId (fst r) = 1 /\
  listName (fst r) = listName state /\
  error (details (snd r)) = None /\
  snapshot (details (snd r)) = fst r.
Proof.
  intros Ha. unfold execute. rewrite Ha. cbn. repeat split.
Qed.

Lemma clear_restarts_witness :
  nextId (fst (execute one_item_state (request Clear))) = 1 /\
  items (fst (execute one_item_state (request Clear))) = [].
Proof.
  pose proof (clear_restarts one_item_state (request Clear) eq_refl) as H.
  cbv zeta in H. destruct H as (Hi & Hn & _). split; assumption.
Defined.

(** C2 fails as stated: after one [add] the next id is 2, and [clear] does
    not keep it. *)
Lemma clear_forgets_nextId :
  nextId one_item_state = 2 /\
  nextId (fst (execute one_item_state (request Clear))) <> nextId one_item_state.
Proof. split; [reflexivity | discriminate]. Qed.

(** ** Reconstruction when the branch has no record of the tool *)

Lemma retain_unrelated (branch : list (SessionEntry TodoDetails))
    (state : TodoState) :
  Forall (fun e => of_tracker e = false) branch ->
  fold_left retain branch state = state.
Proof.
  intros H. revert state. induction H as [|e branch He _ IH]; intros state.
  - reflexivity.
  - cbn [fold_left]. rewrite <- (IH state) at 2. f_equal.
    destruct e as [[name [d|]|role]|type]; cbn in He |- *;
      try reflexivity. now rewrite He.
Qed.

Lemma shared_retain_unrelated
    (branch : list (SessionEntry Shared.TodoDetails))
    (state : Shared.TodoState) :
  Forall (fun e => of_tracker e = false) branch ->
  fold_left Shared.retain branch state = state.
Proof.
  intros H. revert state. induction H as [|e branch He _ IH]; intros state.
  - reflexivity.
  - cbn [fold_left]. rewrite <- (IH state) at 2. f_equal.
    destruct e as [[name [d|]|role]|type]; cbn in He |- *;
      try reflexivity. now rewrite He.
Qed.

Lemma contents_new_array (h : Shared.Store) (l : list Shared.ref) :
  Shared.read_array (fst (Shared.new_array h l)) (snd (Shared.new_array h l))
  = l.
Proof.
  unfold Shared.read_array, Shared.new_array. cbn.
  now rewrite lookup_app_r, Nat.sub_diag.
Qed.

(** C9: on a branch that holds no tool result of the tool, reconstruction
    gives the initial state: no item, next id 1, no list name.  The function
    has no other outcome, so nothing is reported as an error.  Shown for
    both readings of the code. *)
Theorem reconstruct_without_records :
  (forall branch : list (SessionEntry TodoDetails),
      Forall (fun e => of_tracker e = false) branch ->
      reconstructState branch = initial_state) /\
  (forall (h : Shared.Store) (branch : list (SessionEntry Shared.TodoDetails)),
      Forall (fun e => of_tracker e = false) branch ->
      view (fst (Shared.reconstructState h branch))
           (snd (Shared.reconstructState h branch)) = initial_state).
Proof.
  split.
  - intros branch H. unfold reconstructState. now rewrite retain_unrelated.
  - intros h branch H. unfold Shared.reconstructState.
    pose proof (contents_new_array h []) as Hc.
    destruct (Shared.new_array h []) as [h' a] eqn:E. cbn [fst snd] in *.
    rewrite shared_retain_unrelated by assumption.
    unfold view, Shared.contents, Shared.elements. cbn.
    now rewrite Hc.
Qed.

Lemma reconstruct_without_records_witness :
  reconstructState
    [otherEntry "compaction"; message (otherMessage "user");
     message (toolResult "bash" None)] = initial_state.
Proof.
  apply (proj1 reconstruct_without_records).
  repeat constructor.
Defined.

(** ** [batch] *)

Lemma batch_loop_from (entries : list BatchEntry) (st : TodoState)
    (added : list TodoItem) :
  let numbered :=
    imap (fun k e => {| id := nextId st + Z.of_nat k; text := e_text e;
                        status := pending; reason := None;
                        group := e_group e |}) entries in
  fold_left
    (fun (acc : TodoState * list TodoItem) entry =>
       let '(st, item) := push_item (fst acc) (e_text entry) (e_group entry) in
       (st, snd acc ++ [item]))
    entries (st, added)
  = ({| items := items st ++ numbered;
        nextId := nextId st + Z.of_nat (length entries);
        listName := listName st |}, added ++ numbered).
Proof.
  revert st added. induction entries as [|e es IH]; intros st added; cbn zeta.
  - cbn. rewrite !app_nil_r, Z.add_0_r. now destruct st.
  - cbn [fold_left push_item fst snd]. rewrite IH. cbn [items nextId listName].
    rewrite imap_cons, <- !app_assoc. cbn [app length].
    rewrite Z.add_0_r.
    replace (nextId st + 1 + Z.of_nat (length es))
      with (nextId st + Z.of_nat (S (length es))) by lia.
    assert (imap (fun k e0 =>
                    {| id := nextId st + 1 + Z.of_nat k; text := e_text e0;
                       status := pending; reason := None;
                       group := e_group e0 |}) es
            = imap ((fun k e0 =>
                    {| id := nextId st + Z.of_nat k; text := e_text e0;
                       status := pending; reason := None;
                       group := e_group e0 |}) ∘ S) es) as ->.
    { apply imap_ext. intros k x _. cbn. f_equal. lia. }
    reflexivity.
Qed.

(** C7: [batch] with a list of N > 0 entries appends N pending items in the
    order of the list, with ids [nextId], [nextId + 1], ..., and [nextId]
    grows by N; without a list, or with an empty one, it reports the error
    ["items required"] and the state is the one before the call: all the
    items are added, or none. *)
Theorem batch_all_or_nothing (state : TodoState) (params : TodoToolInput) :
  p_action params = Batch ->
  let r := execute state params in
  match p_items params with
  | Some (e :: es) =>
      items (fst r) =
        items state ++
        imap (fun k e => {| id := nextId state + Z.of_nat k; text := e_text e;
                            status := pending; reason := None;
                            group := e_group e |}) (e :: es) /\
      nextId (fst r) = nextId state + Z.of_nat (length (e :: es)) /\
      listName (fst r) = listName state /\
      error (details (snd r)) = None /\
      snapshot (details (snd r)) = fst r
  | _ =>
      fst r = state /\
      snapshot (details (snd r)) = state /\
      exists e, error (details (snd r)) = Some e /\ ValidationError e
  end.
Proof.
  intros Ha. unfold execute. rewrite Ha.
  destruct (p_items params) as [[|e es]|].
  - cbn. destruct state. repeat split. eexists; split; [reflexivity|].
    right; left; reflexivity.
  - unfold batch_loop. rewrite batch_loop_from. cbn -[imap]. repeat split.
  - cbn. destruct state. repeat split. eexists; split; [reflexivity|].
    right; left; reflexivity.
Qed.

Lemma batch_all_or_nothing_witness :
  let r := execute initial_state (batch_request [entry "a"; entry "b"]) in
  map id (items (fst r)) = [1; 2] /\ nextId (fst r) = 3.
Proof.
  pose proof (batch_all_or_nothing initial_state
                (batch_request [entry "a"; entry "b"]) eq_refl) as H.
  cbv zeta in H. cbn [p_items batch_request] in H.
  destruct H as (Hi & Hn & _). cbv zeta. rewrite Hi, Hn. split; reflexivity.
Defined.

(** ** The status actions *)

Lemma first_with_id (i : Z) (l : list TodoItem) :
  Exists (fun it => id it = i) l ->
  exists before item after,
    l = before ++ item :: after /\
    Forall (fun it => id it <> i) before /\ id item = i.
Proof.
  induction l as [|x l IH]; intros H.
  - inversion H.
  - destruct (Z.eq_dec (id x) i) as [Hx|Hx].
    + exists [], x, l. repeat split; [constructor | assumption].
    + destruct IH as (before & item & after & -> & Hb & Hi).
      { inversion H; subst; [contradiction | assumption]. }
      exists (x :: before), item, after. repeat split; [|assumption].
      now constructor.
Qed.

Lemma find_first (i : Z) (before after : list TodoItem) (item : TodoItem) :
  Forall (fun it => id it <> i) before -> id item = i ->
  List.find (fun it => Z.eqb (id it) i) (before ++ item :: after) = Some item.
Proof.
  intros Hb Hi. induction Hb as [|x before Hx _ IH]; cbn.
  - now rewrite (proj2 (Z.eqb_eq _ _) Hi).
  - now rewrite (proj2 (Z.eqb_neq _ _) Hx).
Qed.

Lemma update_first (i : Z) (f : TodoItem -> TodoItem)
    (before after : list TodoItem) (item : TodoItem) :
  Forall (fun it => id it <> i) before -> id item = i ->
  update_found i f (before ++ item :: after) = before ++ f item :: after.
Proof.
  intros Hb Hi. induction Hb as [|x before Hx _ IH]; cbn.
  - now rewrite (proj2 (Z.eqb_eq _ _) Hi).
  - now rewrite (proj2 (Z.eqb_neq _ _) Hx), IH.
Qed.

Lemma find_absent (i : Z) (l : list TodoItem) :
  List.find (fun it => Z.eqb (id it) i) l = None <->
  Forall (fun it => id it <> i) l.
Proof.
  induction l as [|x l IH]; cbn.
  - split; [constructor | reflexivity].
  - destruct (Z.eqb_spec (id x) i) as [Hx|Hx].
    + split; [discriminate|]. intros H. inversion H; subst. contradiction.
    + rewrite IH. split; intros H.
      * now constructor.
      * now inversion H.
Qed.

(** C6: each of [start], [done], [skip], [block], [reset], called with the
    id of an item of the list, gives the first item with that id the status
    in_progress, done, skipped, blocked, pending respectively, whatever its
    status was, and gives it the reason of the request, no reason if the
    request has none, whatever its reason was; the rest of the state is
    kept.  Without an id the call reports ["id required"] (a validation
    error), with an id that no item has it reports ["#<id> not found"] (a
    not-found error), and in both cases the state is kept. *)
Theorem status_actions (state : TodoState) (params : TodoToolInput)
    (s : TodoStatus) :
  In (p_action params, s)
     [(Start, in_progress); (Done, done); (Skip, skipped);
      (Block, blocked); (Reset, pending)] ->
  let r := execute state params in
  match p_id params with
  | None =>
      fst r = state /\
      exists e, error (details (snd r)) = Some e /\ ValidationError e
  | Some i =>
      (Forall (fun it => id it <> i) (items state) ->
       fst r = state /\
       exists e, error (details (snd r)) = Some e /\ NotFoundError i e) /\
      (Exists (fun it => id it = i) (items state) ->
       exists before item after,
         items state = before ++ item :: after /\
         Forall (fun it => id it <> i) before /\ id item = i /\
         fst r =
           {| items :=
                before ++
                {| id := id item; text := text item; status := s;
                   reason := p_reason params; group := group item |} :: after;
              nextId := nextId state; listName := listName state |} /\
         error (details (snd r)) = None)
  end.
Proof.
  intros Ha. cbv zeta.
  assert (statusMap (p_action params) = Some s /\
          execute state params =
          match p_id params with
          | None =>
              (state,
               {| content := "Error: id required for " +:+
                             action_name (p_action params);
                  details := makeDetails state (action_name (p_action params))
                               (Some "id required") |})
          | Some i =>
              match findItem state i with
              | None =>
                  (state,
                   {| content := "Item #" +:+ pretty i +:+ " not found";
                      details := makeDetails state
                                   (action_name (p_action params))
                                   (Some ("#" +:+ pretty i +:+ " not found")) |})
              | Some item =>
                  let item := transition (p_action params) (p_reason params)
                                item in
                  let state :=
                    {| items := update_found i
                                  (transition (p_action params)
                                     (p_reason params)) (items state);
                       nextId := nextId state;
                       listName := listName state |} in
                  (state,
                   {| content := "#" +:+ pretty (id item) +:+ " → " +:+
                        status_name (status item) +:+
                        (if truthy (reason item)
                         then " (" +:+ default "" (reason item) +:+ ")"
                         else "");
                      details := makeDetails state
                                   (action_name (p_action params)) None |})
              end
          end) as [Hs ->].
  { unfold execute. cbn in Ha.
    destruct Ha as [E|[E|[E|[E|[E|[]]]]]]; injection E as E <-;
      rewrite <- E; split; reflexivity. }
  destruct (p_id params) as [i|].
  - split.
    + intros Hno. unfold findItem.
      rewrite (proj2 (find_absent i (items state)) Hno). cbn.
      split; [reflexivity|]. eexists; split; reflexivity.
    + intros Hex.
      destruct (first_with_id i (items state) Hex)
        as (before & item & after & Hl & Hb & Hi).
      exists before, item, after. repeat split; try assumption.
      * unfold findItem. rewrite Hl, (find_first i before after item Hb Hi).
        cbn [fst]. rewrite (update_first i _ before after item Hb Hi).
        unfold transition. now rewrite Hs.
      * unfold findItem. rewrite Hl, (find_first i before after item Hb Hi).
        reflexivity.
  - cbn. split; [reflexivity|]. eexists; split; [reflexivity|].
    right; right; reflexivity.
Qed.

Lemma status_actions_witness :
  let state :=
    fst (execute one_item_state (status_request Skip 1 (Some "flaky env"))) in
  let r := execute state (status_request Reset 1 None) in
  exists before item after,
    items state = before ++ item :: after /\
    Forall (fun it => id it <> 1) before /\ id item = 1 /\
    fst r =
      {| items :=
           before ++
           {| id := id item; text := text item; status := pending;
              reason := None; group := group item |} :: after;
         nextId := nextId state; listName := listName state |} /\
    error (details (snd r)) = None.
Proof.
  intros state r.
  refine (proj2 (status_actions state (status_request Reset 1 None) pending _) _).
  - cbn. do 4 right. left. reflexivity.
  - apply Exists_cons_hd. reflexivity.
Defined.

(** Scenario A: [create], [add], [start], [done]. *)
Example create_add_start_done :
  let state :=
    replay [create_request "Auth"; add_request "write login test";
            status_request Start 1 None; status_request Done 1 None]
      initial_state in
  state = {| items := [{| id := 1; text := "write login test";
                          status := done; reason := None; group := None |}];
             nextId := 2; listName := Some "Auth" |} /\
  content (snd (execute state (request Summary))) = "1 items: 1 done".
Proof. split; reflexivity. Qed.

(** Scenario D: [skip] with a reason and then [reset] leave the item
    pending and without a reason. *)
Example skip_then_reset :
  items (replay [add_request "write login test";
                 status_request Skip 1 (Some "flaky env");
                 status_request Reset 1 None] initial_state)
  = [{| id := 1; text := "write login test"; status := pending;
        reason := None; group := None |}].
Proof. reflexivity. Qed.

(** ** Errors *)

(** The error branches: the state is returned as it was. *)
Local Ltac kept state :=
  split; [intros _; split; [reflexivity | now destruct state] | ].

(** The branch of the five status actions, once the action is known. *)
Local Ltac by_id state params :=
  destruct (p_id params) as [i|]; cbn; [|kept state; reflexivity];
  unfold findItem;
  destruct (List.find _ (items state)) as [item|] eqn:Hf; cbn;
  [ split; [discriminate|]; symmetry; apply bool_decide_eq_false;
    rewrite <- find_absent; congruence
  | kept state; symmetry; apply bool_decide_eq_true; now apply find_absent ].

(** C4: when the details of the result carry an error, the state after the
    call is the state before it, and so is the snapshot in the details; and
    the details carry an error exactly in the cases the table of operations
    names as failures. *)
Theorem errors_leave_state (state : TodoState) (params : TodoToolInput) :
  let r := execute state params in
  (has_error (details (snd r)) = true ->
   fst r = state /\ snapshot (details (snd r)) = state) /\
  has_error (details (snd r)) = spec_fails state params.
Proof.
  cbv zeta. unfold execute, spec_fails, has_error.
  destruct (p_action params) eqn:Ha.
  - (* create *) cbn. split; [discriminate | reflexivity].
  - (* add *)
    destruct (p_text params) as [t|]; cbn; [|kept state; reflexivity].
    destruct (String.eqb_spec t "") as [->|Hne]; cbn.
    + kept state. reflexivity.
    + split; [discriminate|]. symmetry. now apply bool_decide_eq_false.
  - (* batch *)
    destruct (p_items params) as [[|e es]|]; cbn -[batch_loop];
      [kept state; reflexivity| |kept state; reflexivity].
    destruct (batch_loop state (e :: es)) as [st added]. cbn.
    split; [discriminate | reflexivity].
  - (* start *) by_id state params.
  - (* done *) by_id state params.
  - (* skip *) by_id state params.
  - (* block *) by_id state params.
  - (* reset *) by_id state params.
  - (* list *)
    destruct (items state); cbn; (split; [discriminate | reflexivity]).
  - (* summary *) cbn. split; [discriminate | reflexivity].
  - (* clear *) cbn. split; [discriminate | reflexivity].
  - (* unknown *) cbn. kept state. reflexivity.
Qed.

Lemma errors_leave_state_witness :
  let r := execute one_item_state (status_request Done 99 None) in
  has_error (details (snd r)) = true /\ fst r = one_item_state.
Proof.
  cbv zeta. split; [reflexivity|].
  apply (proj1 (errors_leave_state one_item_state
                  (status_request Done 99 None))).
  reflexivity.
Defined.

(** ** The ids a run assigns *)

Section Increasing.

Lemma increasing_app (l1 l2 : list Z) :
  StronglySorted Z.lt l1 -> StronglySorted Z.lt l2 ->
  (forall x y, In x l1 -> In y l2 -> x < y) ->
  StronglySorted Z.lt (l1 ++ l2).
Proof.
  intros H1 H2 H. induction H1 as [|a l1 Hl1 IH Ha]; cbn.
  - assumption.
  - constructor.
    + apply IH. intros x y Hx Hy. apply H; [now right | assumption].
    + apply Forall_app. split; [assumption|].
      apply List.Forall_forall. intros y Hy. apply H; [now left | assumption].
Qed.

Lemma increasing_NoDup (l : list Z) : StronglySorted Z.lt l -> NoDup l.
Proof.
  induction 1 as [|a l Hl IH Ha]; constructor; [|assumption].
  intros Hin. rewrite List.Forall_forall in Ha.
  apply list_elem_of_In in Hin. specialize (Ha a Hin). lia.
Qed.

Lemma numbered_ids (entries : list BatchEntry) (n : Z) :
  let ids :=
    map id (imap (fun k e => {| id := n + Z.of_nat k; text := e_text e;
                                status := pending; reason := None;
                                group := e_group e |}) entries) in
  StronglySorted Z.lt ids /\
  Forall (fun i => n <= i < n + Z.of_nat (length entries)) ids.
Proof.
  revert n. induction entries as [|e es IH]; intros n; cbv zeta.
  - split; constructor.
  - rewrite imap_cons. cbn [map id length].
    assert (imap ((fun k e0 =>
                    {| id := n + Z.of_nat k; text := e_text e0;
                       status := pending; reason := None;
                       group := e_group e0 |}) ∘ S) es
            = imap (fun k e0 =>
                    {| id := (n + 1) + Z.of_nat k; text := e_text e0;
                       status := pending; reason := None;
                       group := e_group e0 |}) es) as ->.
    { apply imap_ext. intros k x _. cbn. f_equal. lia. }
    destruct (IH (n + 1)) as [Hs Hb]. split.
    + constructor; [assumption|].
      eapply Forall_impl; [exact Hb|]. cbn. intros i Hi. lia.
    + constructor; [lia|].
      eapply Forall_impl; [exact Hb|]. cbn. intros i Hi. lia.
Qed.

(** One call that is neither [create] nor [clear]: the ids it assigns are
    increasing and lie between the old and the new [nextId]. *)
Lemma created_ids (state : TodoState) (params : TodoToolInput) :
  p_action params <> Clear -> p_action params <> Create ->
  let ids := map id (created state params) in
  StronglySorted Z.lt ids /\
  Forall (fun i => nextId state <= i < nextId (fst (execute state params))) ids
  /\ nextId state <= nextId (fst (execute state params)).
Proof.
  intros Hc Hn. cbv zeta. unfold created, execute.
  destruct (p_action params) eqn:Ha; try congruence;
    try (cbn; repeat split; first [constructor | lia]; fail).
  - (* add *)
    destruct (negb (truthy (p_text params))); cbn.
    + repeat split; first [constructor | lia].
    + repeat split; try lia; repeat constructor; lia.
  - (* batch *)
    destruct (p_items params) as [[|e es]|];
      try (cbn; repeat split; first [constructor | lia]; fail).
    unfold batch_loop. rewrite batch_loop_from. cbn [fst snd nextId app].
    destruct (numbered_ids (e :: es) (nextId state)) as [Hs Hb].
    repeat split; [exact Hs | exact Hb | lia].
  - destruct (p_id params) as [i|]; [destruct (findItem state i)|]; cbn;
      repeat split; first [constructor | lia].
  - destruct (p_id params) as [i|]; [destruct (findItem state i)|]; cbn;
      repeat split; first [constructor | lia].
  - destruct (p_id params) as [i|]; [destruct (findItem state i)|]; cbn;
      repeat split; first [constructor | lia].
  - destruct (p_id params) as [i|]; [destruct (findItem state i)|]; cbn;
      repeat split; first [constructor | lia].
  - destruct (p_id params) as [i|]; [destruct (findItem state i)|]; cbn;
      repeat split; first [constructor | lia].
  - destruct (items state); cbn; repeat split; first [constructor | lia].
Qed.

Lemma assigned_increasing (requests : list TodoToolInput) (state : TodoState) :
  Forall (fun p => p_action p <> Clear /\ p_action p <> Create) requests ->
  StronglySorted Z.lt (assigned state requests) /\
  Forall (fun i => nextId state <= i) (assigned state requests).
Proof.
  intros H. revert state.
  induction H as [|p rest [Hc Hn] _ IH]; intros state; cbn [assigned].
  - split; constructor.
  - destruct (created_ids state p Hc Hn) as (Hs & Hb & Hle).
    destruct (IH (fst (execute state p))) as [Hs' Hb'].
    rewrite List.Forall_forall in Hb, Hb'. split.
    + apply increasing_app; try assumption.
      intros x y Hx Hy. specialize (Hb x Hx). specialize (Hb' y Hy). lia.
    + apply Forall_app. split; apply List.Forall_forall; intros x Hx.
      * specialize (Hb x Hx). lia.
      * specialize (Hb' x Hx). lia.
Qed.

End Increasing.

(** C3, as the code has it: after a [create], over every run of calls with
    no [clear] and no further [create], the ids that [add] and [batch]
    assign are strictly increasing, and none is assigned twice. *)
Theorem ids_increase_until_clear (state : TodoState) (params : TodoToolInput)
    (requests : list TodoToolInput) :
  p_action params = Create ->
  Forall (fun p => p_action p <> Clear /\ p_action p <> Create) requests ->
  let ids := assigned (fst (execute state params)) requests in
  StronglySorted Z.lt ids /\ NoDup ids.
Proof.
  intros _ H. cbv zeta.
  destruct (assigned_increasing requests (fst (execute state params)) H)
    as [Hs _].
  split; [assumption | now apply increasing_NoDup].
Qed.

Lemma ids_increase_until_clear_witness :
  let ids :=
    assigned (fst (execute one_item_state (create_request "Auth")))
      [add_request "a"; batch_request [entry "b"; entry "c"];
       status_request Done 2 None; add_request "d"] in
  ids = [1; 2; 3; 4] /\ StronglySorted Z.lt ids /\ NoDup ids.
Proof.
  cbv zeta. split; [reflexivity|].
  apply (ids_increase_until_clear one_item_state (create_request "Auth"));
    [reflexivity|].
  repeat constructor; discriminate.
Defined.

(** C3 fails as stated: [clear] sets [nextId] back to 1, so the [add] after
    it assigns the id 1 a second time. *)
Lemma ids_repeat_after_clear :
  let ids :=
    assigned (fst (execute initial_state (create_request "Auth")))
      [add_request "a"; request Clear; add_request "b"] in
  ids = [1; 1] /\ ~ NoDup ids /\ ~ StronglySorted Z.lt ids.
Proof.
  cbv zeta. split; [reflexivity|].
  assert (~ NoDup [1; 1]) as Hd.
  { intros H. inversion H as [|x l Hin _]; subst. apply Hin. now left. }
  split.
  - exact Hd.
  - intros H. apply Hd. now apply increasing_NoDup.
Qed.

(** The items a call creates are the items it appends. *)
Lemma created_appended (state : TodoState) (params : TodoToolInput) :
  p_action params = Add \/ p_action params = Batch ->
  items (fst (execute state params)) = items state ++ created state params.
Proof.
  intros [Ha|Ha]; unfold execute, created; rewrite Ha.
  - destruct (negb (truthy (p_text params))); cbn;
      [now rewrite app_nil_r | reflexivity].
  - destruct (p_items params) as [[|e es]|]; cbn -[batch_loop];
      try now rewrite app_nil_r.
    unfold batch_loop. rewrite batch_loop_from. reflexivity.
Qed.

(** *** The ids of the list at hand

    What does hold across [clear]: in the list at hand the ids are strictly
    increasing and below [nextId], whatever calls have been made. *)

Lemma update_found_ids (i : Z) (f : TodoItem -> TodoItem)
    (l : list TodoItem) :
  (forall x, id (f x) = id x) ->
  map id (update_found i f l) = map id l.
Proof.
  intros Hf. induction l as [|x l IH]; [reflexivity|].
  cbn. destruct (Z.eqb (id x) i); cbn; [now rewrite Hf | now rewrite IH].
Qed.

Lemma ids_ordered_grow (state : TodoState) (params : TodoToolInput) :
  p_action params = Add \/ p_action params = Batch ->
  ids_ordered state -> ids_ordered (fst (execute state params)).
Proof.
  intros Ha [Hs Hb]. unfold ids_ordered.
  rewrite (created_appended state params Ha), map_app.
  destruct (created_ids state params) as (Hs' & Hb' & Hle);
    [destruct Ha as [-> | ->]; discriminate ..|].
  rewrite List.Forall_forall in Hb, Hb'. split.
  - apply increasing_app; try assumption.
    intros x y Hx Hy. specialize (Hb x Hx). specialize (Hb' y Hy). lia.
  - apply Forall_app. split; apply List.Forall_forall; intros x Hx.
    + specialize (Hb x Hx). lia.
    + specialize (Hb' x Hx). lia.
Qed.

Lemma ids_ordered_step (state : TodoState) (params : TodoToolInput) :
  ids_ordered state -> ids_ordered (fst (execute state params)).
Proof.
  intros H.
  destruct (p_action params) eqn:Ha;
    try (apply ids_ordered_grow; [tauto | exact H]);
    unfold execute; rewrite Ha;
    try (split; constructor);
    try (destruct (p_id params) as [i|]; [destruct (findItem state i)|];
         try exact H; unfold ids_ordered; cbn [fst items nextId];
         now rewrite update_found_ids);
    try exact H.
  destruct (items state); exact H.
Qed.

Theorem reachable_ids_ordered (state : TodoState) :
  reachable state -> ids_ordered state.
Proof.
  induction 1 as [|state params _ IH _].
  - split; constructor.
  - now apply ids_ordered_step.
Qed.

(** ** The text of an item *)

(** C5 fails on the code: [batch] pushes the text of an entry as it is, and
    a call of [batch] with an entry of empty text succeeds.  The state it
    gives is reached from the initial state by one successful call, and its
    item has an empty text. *)
Theorem batch_keeps_empty_text :
  let r := execute initial_state (batch_request [entry ""]) in
  has_error (details (snd r)) = false /\
  reachable (fst r) /\
  items (fst r) = [{| id := 1; text := ""; status := pending;
                      reason := None; group := None |}].
Proof.
  cbv zeta. split; [reflexivity|]. split; [|reflexivity].
  apply reachable_step; [apply reachable_initial | reflexivity].
Qed.

(** [add], for its part, refuses an empty text. *)
Lemma add_refuses_empty_text (state : TodoState) (params : TodoToolInput) :
  p_action params = Add -> p_text params = Some "" ->
  has_error (details (snd (execute state params))) = true /\
  fst (execute state params) = state.
Proof.
  intros Ha Ht. unfold execute. rewrite Ha, Ht. cbn. split; reflexivity.
Qed.

Lemma update_found_texts (i : Z) (f : TodoItem -> TodoItem)
    (l : list TodoItem) :
  (forall x, text (f x) = text x) ->
  Forall (fun it => text it <> "") l ->
  Forall (fun it => text it <> "") (update_found i f l).
Proof.
  intros Hf H. induction H as [|x l Hx Hl IH]; cbn; [constructor|].
  destruct (Z.eqb (id x) i); constructor; try assumption.
  now rewrite Hf.
Qed.

(** X10: apart from [batch], no call brings an empty text into the list. *)
Lemma texts_kept_nonempty (state : TodoState) (params : TodoToolInput) :
  p_action params <> Batch ->
  Forall (fun it => text it <> "") (items state) ->
  Forall (fun it => text it <> "") (items (fst (execute state params))).
Proof.
  intros Hb H. unfold execute.
  destruct (p_action params) eqn:Ha; try congruence; try (cbn; auto; fail);
    try (destruct (p_id params) as [i|]; [destruct (findItem state i)|]; cbn;
         try assumption; now apply update_found_texts).
  - destruct (p_text params) as [t|]; cbn; [|assumption].
    destruct (String.eqb_spec t "") as [->|Hne]; cbn; [assumption|].
    apply Forall_app. split; [assumption|]. repeat constructor. exact Hne.
  - destruct state as [[|x l] n name]; cbn in *; assumption.
Qed.

(** ** The two readings of the code agree on one call *)

Section Store.

Local Open Scope nat_scope.

Lemma omap_step {A B : Type} (f : A -> option B) (x : A) (l : list A) :
  omap f (x :: l)
  = match f x with Some y => y :: omap f l | None => omap f l end.
Proof. reflexivity. Qed.

Lemma valid_nil (objs : list TodoItem) : valid objs [].
Proof. split; constructor. Qed.

Lemma valid_grow (objs extra : list TodoItem) (l : list Shared.ref) :
  valid objs l -> valid (objs ++ extra) l.
Proof.
  intros [Hd Hb]. split; [assumption|].
  eapply Forall_impl; [exact Hb|]. cbn. intros r Hr.
  rewrite length_app. lia.
Qed.

Lemma valid_write (objs : list TodoItem) (r : nat) (x : TodoItem)
    (l : list Shared.ref) :
  valid objs l -> valid (<[r := x]> objs) l.
Proof. intros [Hd Hb]. split; [assumption|]. now rewrite length_insert. Qed.

Lemma read_array_valid (h : Shared.Store) (a : Shared.ref) :
  store_ok h -> valid (Shared.objects h) (Shared.read_array h a).
Proof.
  intros Hok. unfold Shared.read_array.
  destruct (Shared.arrays h !! a) as [l|] eqn:E; cbn.
  - unfold store_ok in Hok. rewrite List.Forall_forall in Hok.
    apply Hok. apply list_elem_of_In. eapply list_elem_of_lookup_2. exact E.
  - apply valid_nil.
Qed.

Lemma contents_omap (h : Shared.Store) (a : Shared.ref) :
  Shared.contents h a
  = omap (fun r => Shared.objects h !! r) (Shared.read_array h a).
Proof.
  unfold Shared.contents, Shared.elements.
  induction (Shared.read_array h a) as [|r l IH]; [reflexivity|].
  rewrite !omap_step. cbv beta.
  destruct (Shared.objects h !! r);
    cbn [fmap option_fmap option_map map snd];
    now rewrite IH.
Qed.

Lemma omap_lookup_grow (objs extra : list TodoItem) (l : list Shared.ref) :
  Forall (fun r => r < length objs) l ->
  omap (fun r => (objs ++ extra) !! r) l = omap (fun r => objs !! r) l.
Proof.
  induction 1 as [|r l Hr _ IH]; [reflexivity|].
  rewrite !omap_step. cbv beta.
  rewrite (lookup_app_l objs extra r Hr). now rewrite IH.
Qed.

Lemma omap_lookup_write (objs : list TodoItem) (r : nat) (x : TodoItem)
    (l : list Shared.ref) :
  ~ In r l ->
  omap (fun r' => <[r := x]> objs !! r') l = omap (fun r' => objs !! r') l.
Proof.
  induction l as [|r' l IH]; intros Hr; [reflexivity|].
  rewrite !omap_step. cbv beta.
  rewrite list_lookup_insert_ne by (intros ->; apply Hr; now left).
  rewrite IH; [reflexivity|]. intros Hin. apply Hr. now right.
Qed.

(** The object [findItem] returns is the first item with the id, and writing
    to it rewrites that item of the array and no other. *)
Lemma write_found (objs : list TodoItem) (i : Z) (f : TodoItem -> TodoItem)
    (l : list Shared.ref) :
  valid objs l ->
  match List.find (fun e : Shared.ref * TodoItem => Z.eqb (id (snd e)) i)
          (omap (fun r => pair r <$> objs !! r) l) with
  | Some (r, o) =>
      List.find (fun it => Z.eqb (id it) i) (omap (fun r => objs !! r) l)
        = Some o /\
      omap (fun r' => <[r := f o]> objs !! r') l
        = update_found i f (omap (fun r => objs !! r) l)
  | None =>
      List.find (fun it => Z.eqb (id it) i) (omap (fun r => objs !! r) l)
        = None
  end.
Proof.
  intros [Hd Hb]. induction l as [|r l IH]; [reflexivity|].
  apply NoDup_cons in Hd as [Hr Hd]. apply Forall_cons in Hb as [Hlt Hb].
  specialize (IH Hd Hb).
  destruct (lookup_lt_is_Some_2 objs r Hlt) as [o Ho].
  rewrite (omap_step (fun r0 => pair r0 <$> objs !! r0)).
  rewrite (omap_step (fun r0 => objs !! r0)). cbv beta.
  rewrite Ho. cbn [fmap option_fmap option_map List.find snd update_found].
  destruct (Z.eqb (id o) i) eqn:E.
  - split; [reflexivity|]. rewrite omap_step. cbv beta.
    rewrite (list_lookup_insert_eq objs r (f o) Hlt).
    rewrite omap_lookup_write; [reflexivity|].
    intros Hin. apply Hr. now apply list_elem_of_In.
  - destruct (List.find _ (omap (fun r0 => pair r0 <$> objs !! r0) l))
      as [[r' o']|] eqn:Hf; [|assumption].
    destruct IH as [Hfind Hupd]. split; [assumption|].
    assert (r' <> r) as Hne.
    { intros ->. apply find_some in Hf as [Hin _].
      apply Hr. apply list_elem_of_In. clear -Hin.
      induction l as [|x l IH]; [contradiction|].
      rewrite omap_step in Hin. cbv beta in Hin. destruct (objs !! x);
        cbn [fmap option_fmap option_map] in Hin.
      - destruct Hin as [[= -> _]|Hin]; [left; reflexivity | right; auto].
      - right; auto. }
    rewrite omap_step. cbv beta.
    rewrite list_lookup_insert_ne by assumption. rewrite Ho.
    now rewrite Hupd.
Qed.

End Store.

Section Agreement.

Local Open Scope nat_scope.

Lemma read_new_array_old (h : Shared.Store) (l : list nat) (a : nat) :
  a < length (Shared.arrays h) ->
  Shared.read_array (fst (Shared.new_array h l)) a = Shared.read_array h a.
Proof.
  intros Ha. unfold Shared.read_array, Shared.new_array. cbn.
  now rewrite lookup_app_l.
Qed.

Lemma view_new_array (h : Shared.Store) (l : list nat)
    (st : Shared.TodoState) :
  state_ok h st -> view (fst (Shared.new_array h l)) st = view h st.
Proof.
  intros Hst. unfold view. f_equal. rewrite !contents_omap.
  now rewrite (read_new_array_old h l _ Hst).
Qed.

Lemma new_array_ok (h : Shared.Store) (l : list nat) :
  store_ok h -> valid (Shared.objects h) l ->
  store_ok (fst (Shared.new_array h l)).
Proof.
  intros Hok Hl. unfold store_ok, Shared.new_array. cbn.
  apply Forall_app. split; [exact Hok | now constructor].
Qed.

Lemma new_array_state_ok (h : Shared.Store) (l : list nat)
    (st : Shared.TodoState) :
  state_ok h st -> state_ok (fst (Shared.new_array h l)) st.
Proof.
  unfold state_ok, Shared.new_array. cbn. rewrite length_app. lia.
Qed.

Lemma view_fresh_array (h : Shared.Store) (n : Z) (name : option string) :
  view (fst (Shared.new_array h []))
       {| Shared.items := snd (Shared.new_array h []);
          Shared.nextId := n; Shared.listName := name |}
  = {| items := []; nextId := n; listName := name |}.
Proof.
  unfold view. cbn [Shared.items Shared.nextId Shared.listName].
  rewrite contents_omap, contents_new_array. reflexivity.
Qed.

Lemma fresh_array_state_ok (h : Shared.Store) (l : list nat) (n : Z)
    (name : option string) :
  state_ok (fst (Shared.new_array h l))
    {| Shared.items := snd (Shared.new_array h l);
       Shared.nextId := n; Shared.listName := name |}.
Proof.
  unfold state_ok, Shared.new_array. cbn. rewrite length_app. cbn. lia.
Qed.

(** [makeDetails] and the return: the state is not touched, and the
    snapshot in the details shows the state as it is now. *)
Lemma reply_agrees (h : Shared.Store) (st : Shared.TodoState)
    (t a : string) (e : option string) :
  store_ok h -> state_ok h st ->
  let res := Shared.reply h st t a e in
  view (fst (fst res)) (snd (fst res)) = view h st /\
  Shared.content (snd res) = t /\
  view_details (fst (fst res)) (Shared.details (snd res))
    = makeDetails (view h st) a e /\
  store_ok (fst (fst res)) /\
  state_ok (fst (fst res)) (snd (fst res)) /\
  state_ok (fst (fst res)) (Shared.snapshot (Shared.details (snd res))).
Proof.
  intros Hok Hst. cbv zeta. unfold Shared.reply, Shared.makeDetails.
  pose proof (view_new_array h (Shared.read_array h (Shared.items st)) st Hst)
    as Hview.
  pose proof (contents_new_array h (Shared.read_array h (Shared.items st)))
    as Hcopy.
  pose proof (new_array_ok h _ Hok (read_array_valid h (Shared.items st) Hok))
    as Hok'.
  pose proof (new_array_state_ok h (Shared.read_array h (Shared.items st))
                st Hst) as Hst'.
  pose proof (fresh_array_state_ok h (Shared.read_array h (Shared.items st))
                (Shared.nextId st) (Shared.listName st)) as Hsnap.
  assert (Shared.objects
            (fst (Shared.new_array h (Shared.read_array h (Shared.items st))))
          = Shared.objects h) as Hobjs by reflexivity.
  destruct (Shared.new_array h (Shared.read_array h (Shared.items st)))
    as [h' copy]. cbn [fst snd] in *.
  cbn [Shared.content Shared.details Shared.snapshot].
  repeat split; try assumption.
  unfold view_details, makeDetails. cbn. f_equal.
  unfold view. cbn. f_equal. rewrite !contents_omap, Hcopy, Hobjs.
  reflexivity.
Qed.

Lemma push_item_agrees (h : Shared.Store) (st : Shared.TodoState)
    (t : string) (g : option string) :
  store_ok h -> state_ok h st ->
  let res := Shared.push_item h st t g in
  view (fst (fst res)) (snd (fst res)) = fst (push_item (view h st) t g) /\
  snd res = snd (push_item (view h st) t g) /\
  store_ok (fst (fst res)) /\
  state_ok (fst (fst res)) (snd (fst res)).
Proof.
  intros Hok Hst. cbv zeta.
  unfold Shared.push_item, push_item, Shared.new_object, Shared.write_array.
  cbn [fst snd Shared.objects Shared.arrays].
  destruct (read_array_valid h (Shared.items st) Hok) as [Hd Hb].
  set (item := {| id := Shared.nextId st; text := t; status := pending;
                  reason := None; group := g |}).
  assert (Shared.read_array
            {| Shared.objects := Shared.objects h ++ [item];
               Shared.arrays := Shared.arrays h |} (Shared.items st)
          = Shared.read_array h (Shared.items st)) as Hsame by reflexivity.
  rewrite Hsame.
  set (old := Shared.read_array h (Shared.items st)) in *.
  repeat split.
  - unfold view. cbn [Shared.items Shared.nextId Shared.listName items nextId
      listName]. f_equal. rewrite !contents_omap.
    unfold Shared.read_array at 1. cbn [Shared.arrays Shared.objects].
    rewrite (list_lookup_insert_eq _ _ _ Hst). cbn [default].
    unfold Datatypes.id. fold old.
    rewrite omap_app, (omap_lookup_grow _ _ _ Hb). f_equal.
    rewrite omap_step. cbv beta.
    now rewrite lookup_app_r, Nat.sub_diag.
  - unfold store_ok. cbn [Shared.objects Shared.arrays].
    apply Forall_insert.
    + eapply Forall_impl; [exact Hok|]. intros l Hl. now apply valid_grow.
    + split.
      * apply NoDup_app. repeat split; [assumption| |apply NoDup_singleton].
        intros r Hr Hin. apply list_elem_of_singleton in Hin. subst r.
        rewrite List.Forall_forall in Hb.
        apply list_elem_of_In in Hr. specialize (Hb _ Hr). lia.
      * apply Forall_app. split.
        -- eapply Forall_impl; [exact Hb|]. cbn. intros r Hr.
           rewrite length_app. lia.
        -- repeat constructor. rewrite length_app. cbn. lia.
  - unfold state_ok. cbn. now rewrite length_insert.
Qed.

Lemma batch_loop_agrees (entries : list BatchEntry) (h : Shared.Store)
    (st : Shared.TodoState) (added : list TodoItem) :
  store_ok h -> state_ok h st ->
  let res :=
    fold_left
      (fun (acc : Shared.Store * Shared.TodoState * list TodoItem) entry =>
         let '(h, st, added) := acc in
         let '(h, st, item) :=
           Shared.push_item h st (e_text entry) (e_group entry) in
         (h, st, added ++ [item]))
      entries (h, st, added) in
  let pure :=
    fold_left
      (fun (acc : TodoState * list TodoItem) entry =>
         let '(st, item) :=
           push_item (fst acc) (e_text entry) (e_group entry) in
         (st, snd acc ++ [item]))
      entries (view h st, added) in
  view (fst (fst res)) (snd (fst res)) = fst pure /\
  snd res = snd pure /\
  store_ok (fst (fst res)) /\
  state_ok (fst (fst res)) (snd (fst res)).
Proof.
  revert h st added. induction entries as [|e es IH]; intros h st added Hok Hst.
  - cbn. repeat split; assumption.
  - cbn [fold_left].
    destruct (push_item_agrees h st (e_text e) (e_group e) Hok Hst)
      as (Hv & Hi & Hok' & Hst').
    destruct (Shared.push_item h st (e_text e) (e_group e))
      as [[h1 st1] item1]. cbn [fst snd] in *.
    destruct (push_item (view h st) (e_text e) (e_group e)) as [pst pitem]
      eqn:Ep. cbn [fst snd] in *. subst pitem. rewrite <- Hv.
    apply (IH h1 st1 (added ++ [item1]) Hok' Hst').
Qed.

Lemma reply_as (h : Shared.Store) (st : Shared.TodoState) (pst : TodoState)
    (t a : string) (e : option string) :
  store_ok h -> state_ok h st -> view h st = pst ->
  agrees (Shared.reply h st t a e)
         (pst, {| content := t; details := makeDetails pst a e |}).
Proof.
  intros Hok Hst <-. apply (reply_agrees h st t a e Hok Hst).
Qed.

Lemma write_object_ok (h : Shared.Store) (r : nat) (x : TodoItem) :
  store_ok h -> store_ok (Shared.write_object h r x).
Proof.
  intros Hok. unfold store_ok, Shared.write_object. cbn.
  eapply Forall_impl; [exact Hok|]. intros l Hl. now apply valid_write.
Qed.

(** The five status actions, with object identity. *)
Lemma set_status_agrees (h : Shared.Store) (st : Shared.TodoState)
    (a : Action) (i : Z) (r : option string) :
  store_ok h -> state_ok h st ->
  match Shared.findItem h st i with
  | Some (ref, item) =>
      findItem (view h st) i = Some item /\
      store_ok (Shared.write_object h ref (transition a r item)) /\
      state_ok (Shared.write_object h ref (transition a r item)) st /\
      view (Shared.write_object h ref (transition a r item)) st
        = {| items := update_found i (transition a r) (items (view h st));
             nextId := nextId (view h st);
             listName := listName (view h st) |}
  | None => findItem (view h st) i = None
  end.
Proof.
  intros Hok Hst.
  pose proof (write_found (Shared.objects h) i (transition a r)
                (Shared.read_array h (Shared.items st))
                (read_array_valid h (Shared.items st) Hok)) as H.
  assert (items (view h st)
          = omap (fun r => Shared.objects h !! r)
              (Shared.read_array h (Shared.items st))) as Hitems
    by apply contents_omap.
  unfold Shared.findItem, Shared.elements, findItem. rewrite Hitems.
  destruct (List.find _ (omap _ (Shared.read_array h (Shared.items st))))
    as [[ref item]|]; [|exact H].
  destruct H as [Hf Hu]. split; [exact Hf|].
  split; [now apply write_object_ok|]. split; [exact Hst|].
  unfold view. cbn [nextId listName items]. f_equal.
  rewrite contents_omap. exact Hu.
Qed.

Local Ltac by_ref h st params Hok Hst :=
  let H := fresh "H" in
  let Hf := fresh "Hf" in
  let i := fresh "i" in
  destruct (p_id params) as [i|]; [|now apply reply_as];
  match goal with
  | |- context [transition ?a ?r _] =>
      pose proof (set_status_agrees h st a i r Hok Hst) as H
  end;
  destruct (Shared.findItem h st i) as [[? ?]|];
  [ destruct H as (Hf & ? & ? & ?); rewrite Hf; now apply reply_as
  | rewrite H; now apply reply_as ].

(** One call of the tool: read with object identity or by value, the code
    gives the same state, the same text and the same details, as long as
    the store is well formed; and the store stays well formed. *)
Theorem execute_agrees (h : Shared.Store) (st : Shared.TodoState)
    (params : TodoToolInput) :
  store_ok h -> state_ok h st ->
  agrees (Shared.execute h st params) (execute (view h st) params).
Proof.
  intros Hok Hst. unfold Shared.execute, execute.
  destruct (p_action params) eqn:Ha.
  - (* create *)
    pose proof (view_fresh_array h 1 (p_name params)) as Hv.
    pose proof (new_array_ok h [] Hok (valid_nil _)) as Hok1.
    pose proof (fresh_array_state_ok h [] 1 (p_name params)) as Hst1.
    destruct (Shared.new_array h []) as [h1 a]. cbn [fst snd] in *.
    now apply reply_as.
  - (* add *)
    destruct (negb (truthy (p_text params))); [now apply reply_as|].
    destruct (push_item_agrees h st (default "" (p_text params))
                (p_group params) Hok Hst) as (Hv & Hi & Hok1 & Hst1).
    destruct (Shared.push_item h st (default "" (p_text params))
                (p_group params)) as [[h1 st1] item1].
    destruct (push_item (view h st) (default "" (p_text params))
                (p_group params)) as [pst pitem].
    cbn [fst snd] in *. subst pitem. now apply reply_as.
  - (* batch *)
    destruct (p_items params) as [[|e es]|]; try now apply reply_as.
    unfold Shared.batch_loop, batch_loop.
    destruct (batch_loop_agrees (e :: es) h st [] Hok Hst)
      as (Hv & Hi & Hok1 & Hst1).
    match goal with
    | |- context [fold_left ?f (e :: es) (h, st, [])] =>
        destruct (fold_left f (e :: es) (h, st, [])) as [[h1 st1] added]
    end.
    match goal with
    | |- context [fold_left ?f (e :: es) (view h st, [])] =>
        destruct (fold_left f (e :: es) (view h st, [])) as [pst padded]
    end.
    cbn [fst snd] in *. subst padded. now apply reply_as.
  - (* start *) by_ref h st params Hok Hst.
  - (* done *) by_ref h st params Hok Hst.
  - (* skip *) by_ref h st params Hok Hst.
  - (* block *) by_ref h st params Hok Hst.
  - (* reset *) by_ref h st params Hok Hst.
  - (* list *)
    change (Shared.contents h (Shared.items st)) with (items (view h st)).
    destruct (items (view h st)) eqn:E; now apply reply_as.
  - (* summary *) now apply reply_as.
  - (* clear *)
    pose proof (view_fresh_array h 1 (Shared.listName st)) as Hv.
    pose proof (new_array_ok h [] Hok (valid_nil _)) as Hok1.
    pose proof (fresh_array_state_ok h [] 1 (Shared.listName st)) as Hst1.
    change (Shared.contents h (Shared.items st)) with (items (view h st)).
    destruct (Shared.new_array h []) as [h1 a]. cbn [fst snd] in *.
    now apply reply_as.
  - (* unknown *) now apply reply_as.
Qed.

End Agreement.

(** ** Reconstruction and replay *)

Lemma snapshot_makeDetails (state : TodoState) (a : string)
    (e : option string) :
  snapshot (makeDetails state a e) = state.
Proof. now destruct state. Qed.

(** The snapshot in the details of a result is the state the call leaves. *)
Lemma snapshot_is_state (state : TodoState) (params : TodoToolInput) :
  snapshot (details (snd (execute state params)))
  = fst (execute state params).
Proof.
  unfold execute.
  destruct (p_action params).
  - apply snapshot_makeDetails.
  - destruct (negb (truthy (p_text params)));
      [apply snapshot_makeDetails|].
    destruct (push_item state (default "" (p_text params)) (p_group params)).
    apply snapshot_makeDetails.
  - destruct (p_items params) as [[|e es]|]; try apply snapshot_makeDetails.
    destruct (batch_loop state (e :: es)). apply snapshot_makeDetails.
  - destruct (p_id params) as [i|]; [destruct (findItem state i)|];
      apply snapshot_makeDetails.
  - destruct (p_id params) as [i|]; [destruct (findItem state i)|];
      apply snapshot_makeDetails.
  - destruct (p_id params) as [i|]; [destruct (findItem state i)|];
      apply snapshot_makeDetails.
  - destruct (p_id params) as [i|]; [destruct (findItem state i)|];
      apply snapshot_makeDetails.
  - destruct (p_id params) as [i|]; [destruct (findItem state i)|];
      apply snapshot_makeDetails.
  - destruct (items state); apply snapshot_makeDetails.
  - apply snapshot_makeDetails.
  - apply snapshot_makeDetails.
  - apply snapshot_makeDetails.
Qed.

Lemma replay_snoc (requests : list TodoToolInput) (params : TodoToolInput)
    (state : TodoState) :
  replay (requests ++ [params]) state
  = fst (execute (replay requests state) params).
Proof. unfold replay. now rewrite fold_left_app. Qed.




(** ** Sessions in one process *)

Section Sessions.

Lemma retain_last (branch : list (SessionEntry Shared.TodoDetails))
    (acc : option Shared.TodoState) (st0 : Shared.TodoState) :
  fold_left Shared.retain branch (default st0 acc)
  = default st0
      (fold_left
         (fun acc entry =>
            match entry with
            | message (toolResult toolName (Some details)) =>
                if String.eqb toolName "todo"
                then Some (Shared.snapshot details) else acc
            | _ => acc
            end) branch acc).
Proof.
  revert acc. induction branch as [|e branch IH]; intros acc.
  - reflexivity.
  - cbn [fold_left]. rewrite <- IH. f_equal.
    destruct e as [[name [d|]|role]|type]; try reflexivity.
    cbn [Shared.retain]. destruct (String.eqb name "todo"); [|reflexivity].
    cbn. now destruct (Shared.snapshot d).
Qed.

Lemma reconstruct_last (h : Shared.Store)
    (branch : list (SessionEntry Shared.TodoDetails)) :
  Shared.reconstructState h branch
  = (fst (Shared.new_array h []),
     default {| Shared.items := snd (Shared.new_array h []);
                Shared.nextId := 1; Shared.listName := None |}
       (last_snapshot branch)).
Proof.
  unfold Shared.reconstructState, last_snapshot.
  rewrite <- retain_last. reflexivity.
Qed.

Lemma last_snapshot_snoc (branch : list (SessionEntry Shared.TodoDetails))
    (e : SessionEntry Shared.TodoDetails) :
  last_snapshot (branch ++ [e])
  = match e with
    | message (toolResult toolName (Some details)) =>
        if String.eqb toolName "todo"
        then Some (Shared.snapshot details) else last_snapshot branch
    | _ => last_snapshot branch
    end.
Proof. unfold last_snapshot. now rewrite fold_left_app. Qed.

Lemma rebuilt_rebuild (s : Shared.Session) :
  rebuilt s
  = view (Shared.store (Shared.rebuild s)) (Shared.state (Shared.rebuild s)).
Proof.
  unfold rebuilt, Shared.rebuild.
  now destruct (Shared.reconstructState (Shared.store s) (Shared.getBranch s)).
Qed.

Lemma start_ok : session_ok Shared.start.
Proof.
  unfold session_ok, Shared.start. cbn.
  repeat split; try reflexivity.
  - repeat constructor.
  - unfold state_ok. cbn. lia.
Qed.

Lemma rebuild_ok (s : Shared.Session) :
  session_ok s ->
  session_ok (Shared.rebuild s) /\
  view (Shared.store (Shared.rebuild s)) (Shared.state (Shared.rebuild s))
  = view (Shared.store s) (Shared.state s).
Proof.
  intros (Hok & Hst & Hrep & Hlast).
  unfold Shared.rebuild. rewrite reconstruct_last.
  unfold session_ok, Shared.getBranch in *.
  cbn [Shared.store Shared.state Shared.path].
  pose proof (new_array_ok (Shared.store s) [] Hok (valid_nil _)) as Hok1.
  pose proof (view_fresh_array (Shared.store s) 1 None) as Hfresh.
  pose proof (fresh_array_state_ok (Shared.store s) [] 1 None) as Hst1.
  destruct (last_snapshot (map Shared.entry_of (Shared.path s))) as [snap|];
    cbn [default].
  - destruct Hlast as [Hsnap Hview].
    pose proof (new_array_state_ok (Shared.store s) [] snap Hsnap) as Hsnap1.
    pose proof (view_new_array (Shared.store s) [] snap Hsnap) as Hv1.
    unfold Datatypes.id.
    repeat split; try assumption; congruence.
  - unfold Datatypes.id. change initial_state
      with {| items := []; nextId := 1; listName := None |} in *.
    repeat split; try assumption; congruence.
Qed.

Lemma step_ok (s : Shared.Session) (e : Shared.Event) :
  Shared.forward e = true -> session_ok s -> session_ok (Shared.step s e).
Proof.
  intros He Hs. destruct e as [params|entry| |n]; cbn [Shared.step].
  - (* a call *)
    destruct Hs as (Hok & Hst & Hrep & _).
    pose proof (execute_agrees (Shared.store s) (Shared.state s) params
                  Hok Hst) as (Hv & _ & Hd & Hok1 & Hst1 & Hsnap).
    destruct (Shared.execute (Shared.store s) (Shared.state s) params)
      as [[h1 st1] result]. cbn [fst snd] in *.
    unfold session_ok, Shared.getBranch.
    cbn [Shared.store Shared.state Shared.path].
    rewrite map_app. cbn [map Shared.entry_of]. rewrite last_snapshot_snoc.
    cbn [String.eqb Ascii.eqb Bool.eqb andb].
    unfold requests_of. rewrite omap_app. fold (@requests_of Shared.ToolResult
      Shared.TodoDetails (Shared.path s)).
    cbn [omap list_omap]. rewrite replay_snoc, <- Hrep.
    repeat split; try assumption.
    rewrite Hv, <- snapshot_is_state, <- Hd. reflexivity.
  - (* an entry of another kind *)
    destruct Hs as (Hok & Hst & Hrep & Hlast). cbn in He.
    apply negb_true_iff in He.
    unfold session_ok, Shared.getBranch in *.
    cbn [Shared.store Shared.state Shared.path].
    rewrite map_app. cbn [map Shared.entry_of]. rewrite last_snapshot_snoc.
    unfold requests_of. rewrite omap_app. fold (@requests_of Shared.ToolResult
      Shared.TodoDetails (Shared.path s)).
    cbn [omap list_omap]. rewrite app_nil_r.
    repeat split; try assumption.
    destruct entry as [[name [d|]|role]|type]; cbn in He; try assumption.
    now rewrite He.
  - (* the branch is read again *)
    now apply rebuild_ok.
  - discriminate.
Qed.

Lemma steps_ok (events : list Shared.Event) (s : Shared.Session) :
  Forall (fun e => Shared.forward e = true) events ->
  session_ok s -> session_ok (fold_left Shared.step events s).
Proof.
  intros H. revert s. induction H as [|e events He _ IH]; intros s Hs.
  - exact Hs.
  - cbn [fold_left]. apply IH. now apply step_ok.
Qed.

(** X20: in a session that only grows, reconstruction gives the state that
    replaying the recorded requests computes, and it is the state the tool
    holds: the sharing of objects does no harm as long as the tip of the
    branch is its last entry. *)
Theorem rebuilt_forward (events : list Shared.Event) :
  Forall (fun e => Shared.forward e = true) events ->
  let s := Shared.run events in
  rebuilt s = replay (requests_of (Shared.path s)) initial_state /\
  view (Shared.store s) (Shared.state s)
  = replay (requests_of (Shared.path s)) initial_state.
Proof.
  intros H. cbv zeta.
  pose proof (steps_ok events Shared.start H start_ok) as Hs.
  fold (Shared.run events) in Hs.
  destruct (rebuild_ok _ Hs) as [_ Hv].
  destruct Hs as (_ & _ & Hrep & _).
  rewrite rebuilt_rebuild, Hv. split; exact Hrep.
Qed.

Example rebuilt_forward_example :
  let s :=
    Shared.run [Shared.Call (add_request "a"); Shared.Reattach;
                Shared.Foreign (message (otherMessage "user"));
                Shared.Call (add_request "b");
                Shared.Call (status_request Start 1 None)] in
  rebuilt s
  = replay [add_request "a"; add_request "b"; status_request Start 1 None]
      initial_state.
Proof.
  cbv zeta.
  refine (proj1 (rebuilt_forward _ _)). repeat constructor.
Defined.

End Sessions.

(** ** Reconstruction after the tip of the branch has moved back *)

(** C1 fails on the code.  In one process, [add "a"] and then [start 1] are
    called, and the tip of the branch is moved back to the record of the
    [add].  The branch now records the one request [add "a"], whose replay
    gives an item that is pending.  [makeDetails] had copied the array for
    that record but not the item, so the [start] of the branch that was left
    has written to the item the record refers to, and reconstruction gives
    an item that is in progress. *)
Theorem rebuilt_after_navigate :
  let s :=
    Shared.run [Shared.Call (add_request "a");
                Shared.Call (status_request Start 1 None);
                Shared.Navigate 1] in
  requests_of (Shared.path s) = [add_request "a"] /\
  replay (requests_of (Shared.path s)) initial_state
  = {| items := [{| id := 1; text := "a"; status := pending;
                    reason := None; group := None |}];
       nextId := 2; listName := None |} /\
  rebuilt s
  = {| items := [{| id := 1; text := "a"; status := in_progress;
                    reason := None; group := None |}];
       nextId := 2; listName := None |} /\
  view (Shared.store s) (Shared.state s) = rebuilt s.
Proof. cbv zeta. repeat split. Qed.

(** The array itself is shared as well: [reconstructState] keeps the array
    of the record it reads, and the next [add] pushes to it.  After the tip
    has moved back to that record, its snapshot holds the item of the
    branch that was left, next to a [nextId] that is its id, and the next
    [add] gives that id to a second item. *)
Example rebuilt_after_push :
  let s :=
    Shared.run [Shared.Call (add_request "a"); Shared.Reattach;
                Shared.Call (add_request "b"); Shared.Navigate 1;
                Shared.Call (add_request "c")] in
  requests_of (Shared.path s) = [add_request "a"; add_request "c"] /\
  map id (items (replay (requests_of (Shared.path s)) initial_state)) = [1; 2]
  /\
  map (fun it => (id it, text it))
      (items (view (Shared.store s) (Shared.state s)))
  = [(1, "a"); (2, "b"); (2, "c")].
Proof. cbv zeta. repeat split. Qed.

(** ** Every call of every session *)

Section Always.

Local Open Scope nat_scope.

Lemma reply_arrays (h : Shared.Store) (st : Shared.TodoState)
    (t a : string) (e : option string) :
  length (Shared.arrays (fst (fst (Shared.reply h st t a e))))
  = S (length (Shared.arrays h)).
Proof.
  unfold Shared.reply, Shared.makeDetails, Shared.new_array. cbn.
  rewrite length_app. cbn. lia.
Qed.

Lemma push_item_arrays (h : Shared.Store) (st : Shared.TodoState)
    (t : string) (g : option string) :
  length (Shared.arrays (fst (fst (Shared.push_item h st t g))))
  = length (Shared.arrays h).
Proof.
  unfold Shared.push_item, Shared.new_object, Shared.write_array. cbn.
  now rewrite length_insert.
Qed.

Lemma batch_loop_arrays (entries : list BatchEntry) (h : Shared.Store)
    (st : Shared.TodoState) (added : list TodoItem) :
  length (Shared.arrays (fst (fst
    (fold_left
       (fun (acc : Shared.Store * Shared.TodoState * list TodoItem) entry =>
          let '(h, st, added) := acc in
          let '(h, st, item) :=
            Shared.push_item h st (e_text entry) (e_group entry) in
          (h, st, added ++ [item]))
       entries (h, st, added)))))
  = length (Shared.arrays h).
Proof.
  revert h st added. induction entries as [|e es IH]; intros h st added.
  - reflexivity.
  - cbn [fold_left].
    pose proof (push_item_arrays h st (e_text e) (e_group e)) as Hp.
    destruct (Shared.push_item h st (e_text e) (e_group e))
      as [[h1 st1] item1]. cbn [fst] in Hp. now rewrite IH.
Qed.

(** A call creates arrays and removes none. *)
Lemma execute_arrays (h : Shared.Store) (st : Shared.TodoState)
    (params : TodoToolInput) :
  length (Shared.arrays h)
  <= length (Shared.arrays (fst (fst (Shared.execute h st params)))).
Proof.
  unfold Shared.execute.
  destruct (p_action params).
  - unfold Shared.new_array. rewrite reply_arrays. cbn.
    rewrite length_app. lia.
  - destruct (negb (truthy (p_text params))); [rewrite reply_arrays; lia|].
    pose proof (push_item_arrays h st (default "" (p_text params))
                  (p_group params)) as Hp.
    destruct (Shared.push_item h st (default "" (p_text params))
                (p_group params)) as [[h1 st1] item1].
    cbn [fst] in Hp. rewrite reply_arrays. lia.
  - destruct (p_items params) as [[|e es]|]; try (rewrite reply_arrays; lia).
    pose proof (batch_loop_arrays (e :: es) h st []) as Hb.
    unfold Shared.batch_loop.
    match goal with
    | |- context [fold_left ?f (e :: es) (h, st, [])] =>
        destruct (fold_left f (e :: es) (h, st, [])) as [[h1 st1] added]
    end.
    cbn [fst] in Hb. rewrite reply_arrays. lia.
  - destruct (p_id params) as [i|];
      [destruct (Shared.findItem h st i) as [[ref item]|]|];
      rewrite reply_arrays; cbn; lia.
  - destruct (p_id params) as [i|];
      [destruct (Shared.findItem h st i) as [[ref item]|]|];
      rewrite reply_arrays; cbn; lia.
  - destruct (p_id params) as [i|];
      [destruct (Shared.findItem h st i) as [[ref item]|]|];
      rewrite reply_arrays; cbn; lia.
  - destruct (p_id params) as [i|];
      [destruct (Shared.findItem h st i) as [[ref item]|]|];
      rewrite reply_arrays; cbn; lia.
  - destruct (p_id params) as [i|];
      [destruct (Shared.findItem h st i) as [[ref item]|]|];
      rewrite reply_arrays; cbn; lia.
  - destruct (Shared.contents h (Shared.items st)); rewrite reply_arrays; lia.
  - rewrite reply_arrays; lia.
  - unfold Shared.new_array. rewrite reply_arrays. cbn.
    rewrite length_app. lia.
  - rewrite reply_arrays; lia.
Qed.

Lemma record_ok_grow (h h' : Shared.Store)
    (rec : ActionRecord Shared.ToolResult Shared.TodoDetails) :
  length (Shared.arrays h) <= length (Shared.arrays h') ->
  record_ok h rec -> record_ok h' rec.
Proof.
  intros Hle. destruct rec as [request result|entry]; cbn; [|auto].
  unfold state_ok. lia.
Qed.

Lemma last_snapshot_ok (h : Shared.Store)
    (path : list (ActionRecord Shared.ToolResult Shared.TodoDetails)) :
  Forall (record_ok h) path ->
  match last_snapshot (map Shared.entry_of path) with
  | Some snap => state_ok h snap
  | None => True
  end.
Proof.
  induction path as [|rec path IH] using rev_ind; intros H.
  - exact I.
  - apply Forall_app in H as [Hpath Hrec].
    apply Forall_cons in Hrec as [Hrec _]. specialize (IH Hpath).
    rewrite map_app. cbn [map]. rewrite last_snapshot_snoc.
    destruct rec as [request result|entry]; cbn in Hrec |- *; [exact Hrec|].
    destruct entry as [[name [d|]|role]|type]; cbn in Hrec; try exact IH.
    now rewrite Hrec.
Qed.

Lemma rebuild_wf (s : Shared.Session) :
  session_wf s -> session_wf (Shared.rebuild s).
Proof.
  intros (Hok & Hst & Hpath).
  unfold Shared.rebuild. rewrite reconstruct_last.
  unfold session_wf, Shared.getBranch.
  cbn [Shared.store Shared.state Shared.path].
  pose proof (last_snapshot_ok _ _ Hpath) as Hlast.
  split; [apply new_array_ok; [assumption | apply valid_nil]|]. split.
  - destruct (last_snapshot (map Shared.entry_of (Shared.path s)))
      as [snap|]; cbn [default]; unfold Datatypes.id.
    + now apply new_array_state_ok.
    + apply fresh_array_state_ok.
  - eapply Forall_impl; [exact Hpath|]. intros rec.
    apply record_ok_grow. unfold Shared.new_array. cbn.
    rewrite length_app. lia.
Qed.

Lemma step_wf (s : Shared.Session) (e : Shared.Event) :
  plain e = true -> session_wf s -> session_wf (Shared.step s e).
Proof.
  intros He Hs. destruct e as [params|entry| |n]; cbn [Shared.step].
  - destruct Hs as (Hok & Hst & Hpath).
    pose proof (execute_agrees (Shared.store s) (Shared.state s) params
                  Hok Hst) as (_ & _ & _ & Hok1 & Hst1 & Hsnap).
    pose proof (execute_arrays (Shared.store s) (Shared.state s) params)
      as Hle.
    destruct (Shared.execute (Shared.store s) (Shared.state s) params)
      as [[h1 st1] result]. cbn [fst snd] in *.
    repeat split; try assumption. cbn [Shared.store Shared.path].
    apply Forall_app. split; [|repeat constructor; exact Hsnap].
    eapply Forall_impl; [exact Hpath|]. intros rec.
    now apply record_ok_grow.
  - destruct Hs as (Hok & Hst & Hpath). cbn in He.
    apply negb_true_iff in He.
    repeat split; try assumption. cbn [Shared.store Shared.path].
    apply Forall_app. split; [assumption | repeat constructor; exact He].
  - now apply rebuild_wf.
  - apply rebuild_wf. destruct Hs as (Hok & Hst & Hpath).
    repeat split; try assumption. cbn [Shared.store Shared.path].
    now apply Forall_take.
Qed.

Lemma run_wf (events : list Shared.Event) :
  Forall (fun e => plain e = true) events -> session_wf (Shared.run events).
Proof.
  intros H. unfold Shared.run.
  assert (session_wf Shared.start) as H0.
  { unfold session_wf, Shared.start. cbn. repeat split.
    - repeat constructor.
    - unfold state_ok. cbn. lia.
    - constructor. }
  revert H0. generalize Shared.start.
  induction H as [|e events He _ IH]; intros s Hs; [exact Hs|].
  cbn [fold_left]. apply IH. now apply step_wf.
Qed.

(** X11: in every session, wherever the tip of the branch has been moved, a
    call of the tool does to the state it holds what the code read by value
    does: the properties of one call hold of the code read with object
    identity. *)
Theorem every_call_agrees (events : list Shared.Event)
    (params : TodoToolInput) :
  Forall (fun e => plain e = true) events ->
  let s := Shared.run events in
  agrees (Shared.execute (Shared.store s) (Shared.state s) params)
         (execute (view (Shared.store s) (Shared.state s)) params).
Proof.
  intros H. cbv zeta. destruct (run_wf events H) as (Hok & Hst & _).
  now apply execute_agrees.
Qed.

End Always.

(** * Further properties of the code *)

(** ** What a call keeps *)

Lemma transition_keeps (a : Action) (r : option string) (x : TodoItem) :
  id (transition a r x) = id x /\
  text (transition a r x) = text x /\
  group (transition a r x) = group x.
Proof. repeat split. Qed.

Lemma update_found_core (i : Z) (f : TodoItem -> TodoItem)
    (l : list TodoItem) :
  (forall x, id (f x) = id x /\ text (f x) = text x /\ group (f x) = group x) ->
  map (fun it => (id it, text it, group it)) (update_found i f l)
  = map (fun it => (id it, text it, group it)) l.
Proof.
  intros Hf. induction l as [|x l IH]; [reflexivity|].
  cbn. destruct (Z.eqb (id x) i); cbn.
  - destruct (Hf x) as (-> & -> & ->). reflexivity.
  - now rewrite IH.
Qed.

(** X1: apart from [create] and [clear], no call removes an item, moves one,
    or changes the id, the text or the group of one: the items of the state
    before the call, read by these three fields, are the first items of the
    state after it; and [nextId] does not decrease. *)
Theorem items_kept_in_place (state : TodoState) (params : TodoToolInput) :
  p_action params <> Create -> p_action params <> Clear ->
  (exists new,
      map (fun it => (id it, text it, group it))
          (items (fst (execute state params)))
      = map (fun it => (id it, text it, group it)) (items state) ++ new) /\
  nextId state <= nextId (fst (execute state params)).
Proof.
  intros Hc Hl. split; [|apply (created_ids state params); congruence].
  destruct (p_action params) eqn:Ha; try congruence.
  - rewrite (created_appended state params (or_introl Ha)), map_app. eauto.
  - rewrite (created_appended state params (or_intror Ha)), map_app. eauto.
  - exists []. rewrite app_nil_r. unfold execute. rewrite Ha.
    destruct (p_id params) as [i|]; [destruct (findItem state i)|];
      try reflexivity.
    cbn [fst items]. apply update_found_core. intros x. apply transition_keeps.
  - exists []. rewrite app_nil_r. unfold execute. rewrite Ha.
    destruct (p_id params) as [i|]; [destruct (findItem state i)|];
      try reflexivity.
    cbn [fst items]. apply update_found_core. intros x. apply transition_keeps.
  - exists []. rewrite app_nil_r. unfold execute. rewrite Ha.
    destruct (p_id params) as [i|]; [destruct (findItem state i)|];
      try reflexivity.
    cbn [fst items]. apply update_found_core. intros x. apply transition_keeps.
  - exists []. rewrite app_nil_r. unfold execute. rewrite Ha.
    destruct (p_id params) as [i|]; [destruct (findItem state i)|];
      try reflexivity.
    cbn [fst items]. apply update_found_core. intros x. apply transition_keeps.
  - exists []. rewrite app_nil_r. unfold execute. rewrite Ha.
    destruct (p_id params) as [i|]; [destruct (findItem state i)|];
      try reflexivity.
    cbn [fst items]. apply update_found_core. intros x. apply transition_keeps.
  - exists []. rewrite app_nil_r. unfold execute. rewrite Ha.
    destruct state as [[|x l] n name]; reflexivity.
  - exists []. rewrite app_nil_r. unfold execute. rewrite Ha. reflexivity.
  - exists []. rewrite app_nil_r. unfold execute. rewrite Ha. reflexivity.
Qed.

Lemma items_kept_in_place_witness :
  let state :=
    replay [add_request "a"; add_request "b"] initial_state in
  exists new,
    map (fun it => (id it, text it, group it))
        (items (fst (execute state (status_request Block 1 (Some "env")))))
    = [(1, "a", None); (2, "b", None)] ++ new.
Proof.
  cbv zeta.
  refine (proj1 (items_kept_in_place _ (status_request Block 1 (Some "env"))
                   _ _)); discriminate.
Defined.

(** X2: the name of the list is set by [create] and by nothing else. *)
Theorem listName_kept (state : TodoState) (params : TodoToolInput) :
  p_action params <> Create ->
  listName (fst (execute state params)) = listName state.
Proof.
  intros Hc. unfold execute.
  destruct (p_action params) eqn:Ha; try congruence; try reflexivity.
  - destruct (negb (truthy (p_text params))); reflexivity.
  - destruct (p_items params) as [[|e es]|]; try reflexivity.
    unfold batch_loop. rewrite batch_loop_from. reflexivity.
  - destruct (p_id params) as [i|]; [destruct (findItem state i)|];
      reflexivity.
  - destruct (p_id params) as [i|]; [destruct (findItem state i)|];
      reflexivity.
  - destruct (p_id params) as [i|]; [destruct (findItem state i)|];
      reflexivity.
  - destruct (p_id params) as [i|]; [destruct (findItem state i)|];
      reflexivity.
  - destruct (p_id params) as [i|]; [destruct (findItem state i)|];
      reflexivity.
  - destruct (items state); reflexivity.
Qed.

Lemma listName_kept_witness :
  listName (replay [create_request "Auth"; add_request "a"; request Clear;
                    batch_request [entry "b"]] initial_state)
  = Some "Auth".
Proof.
  change (listName
            (fst (execute
                    (replay [create_request "Auth"; add_request "a";
                             request Clear] initial_state)
                    (batch_request [entry "b"]))) = Some "Auth").
  rewrite (listName_kept _ (batch_request [entry "b"])) by discriminate.
  reflexivity.
Defined.

(** ** Calling twice *)

Lemma update_found_find (i : Z) (f : TodoItem -> TodoItem)
    (l : list TodoItem) (item : TodoItem) :
  (forall x, id (f x) = id x) ->
  List.find (fun it => Z.eqb (id it) i) l = Some item ->
  List.find (fun it => Z.eqb (id it) i) (update_found i f l) = Some (f item).
Proof.
  intros Hf. induction l as [|x l IH]; cbn; [discriminate|].
  destruct (Z.eqb (id x) i) eqn:E; cbn.
  - intros [= ->]. now rewrite Hf, E.
  - rewrite E. exact IH.
Qed.

Lemma update_found_twice (i : Z) (f : TodoItem -> TodoItem)
    (l : list TodoItem) :
  (forall x, id (f x) = id x) -> (forall x, f (f x) = f x) ->
  update_found i f (update_found i f l) = update_found i f l.
Proof.
  intros Hid Hf. induction l as [|x l IH]; [reflexivity|].
  cbn. destruct (Z.eqb (id x) i) eqn:E; cbn.
  - now rewrite Hid, E, Hf.
  - now rewrite E, IH.
Qed.

Lemma transition_twice (a : Action) (r : option string) (x : TodoItem) :
  transition a r (transition a r x) = transition a r x.
Proof. unfold transition. cbn. now destruct (statusMap a). Qed.

(** X3: every request but a successful [add] or [batch] can be repeated: the
    second call leaves the state the first call gave.  In particular a
    status action sent twice marks the item once. *)
Theorem repeated_call (state : TodoState) (params : TodoToolInput) :
  p_action params <> Add -> p_action params <> Batch ->
  fst (execute (fst (execute state params)) params)
  = fst (execute state params).
Proof.
  intros Hadd Hbatch. unfold execute.
  destruct (p_action params) eqn:Ha; try congruence; try reflexivity;
    try (destruct (p_id params) as [i|]; [|reflexivity];
         destruct (findItem state i) as [item|] eqn:Hf;
         [|cbn [fst]; now rewrite Hf];
         cbn [fst]; unfold findItem in *; cbn [items];
         rewrite (update_found_find i _ _ item
                    (fun x => proj1 (transition_keeps _ _ x)) Hf);
         cbn [fst items nextId listName];
         rewrite update_found_twice;
         [reflexivity
         | intros x; apply transition_keeps
         | intros x; apply transition_twice]).
  destruct state as [[|x l] n name]; reflexivity.
Qed.

Lemma repeated_call_witness :
  let state := replay [add_request "a"; add_request "b"] initial_state in
  let p := status_request Skip 2 (Some "later") in
  replay [p; p] state = replay [p] state.
Proof.
  cbv zeta.
  apply (repeated_call (replay [add_request "a"; add_request "b"]
                          initial_state)
           (status_request Skip 2 (Some "later"))); discriminate.
Defined.

(** ** The item a status action marks *)

Lemma map_absent (i : Z) (f : TodoItem -> TodoItem) (l : list TodoItem) :
  Forall (fun it => id it <> i) l ->
  map (fun it => if Z.eqb (id it) i then f it else it) l = l.
Proof.
  induction 1 as [|x l Hx _ IH]; [reflexivity|].
  cbn. rewrite (proj2 (Z.eqb_neq _ _) Hx). now rewrite IH.
Qed.

Lemma update_found_map (i : Z) (f : TodoItem -> TodoItem)
    (l : list TodoItem) :
  StronglySorted Z.lt (map id l) ->
  update_found i f l = map (fun it => if Z.eqb (id it) i then f it else it) l.
Proof.
  induction l as [|x l IH]; intros Hs; [reflexivity|].
  cbn in Hs. apply StronglySorted_inv in Hs as [Hs Hx].
  cbn. destruct (Z.eqb_spec (id x) i) as [Hi|Hi].
  - f_equal. symmetry. apply map_absent.
    rewrite List.Forall_forall in Hx. apply List.Forall_forall.
    intros y Hy. assert (id x < id y) by (apply Hx; now apply in_map). lia.
  - f_equal. now apply IH.
Qed.

(** X4: in a state reached from the initial state, a status action with an
    id marks every item that has the id, and there is at most one; each
    other item is left as it is.  With an id that no item has, nothing is
    marked. *)
Theorem status_marks_by_id (state : TodoState) (params : TodoToolInput)
    (s : TodoStatus) (i : Z) :
  reachable state ->
  In (p_action params, s)
     [(Start, in_progress); (Done, done); (Skip, skipped);
      (Block, blocked); (Reset, pending)] ->
  p_id params = Some i ->
  items (fst (execute state params))
  = map (fun it =>
           if Z.eqb (id it) i
           then {| id := id it; text := text it; status := s;
                   reason := p_reason params; group := group it |}
           else it) (items state) /\
  NoDup (map id (items state)).
Proof.
  intros Hr Ha Hi.
  destruct (reachable_ids_ordered state Hr) as [Hs _].
  split; [|now apply increasing_NoDup].
  unfold execute. cbn in Ha.
  destruct Ha as [E|[E|[E|[E|[E|[]]]]]]; injection E as E <-;
    rewrite <- E, Hi; unfold findItem;
    (destruct (List.find _ (items state)) as [item|] eqn:Hf; cbn [fst items];
     [ rewrite (update_found_map i _ _ Hs); reflexivity
     | symmetry; apply map_absent; now apply find_absent ]).
Qed.

Lemma status_marks_by_id_witness :
  let state := replay [add_request "a"; add_request "b"] initial_state in
  map status
      (items (fst (execute state (status_request Done 2 None))))
  = [pending; done].
Proof.
  cbv zeta.
  rewrite (proj1 (status_marks_by_id
                    (replay [add_request "a"; add_request "b"] initial_state)
                    (status_request Done 2 None) done 2
                    (reachable_step _ (add_request "b")
                       (reachable_step _ (add_request "a")
                          reachable_initial eq_refl) eq_refl)
                    (or_intror (or_introl eq_refl)) eq_refl)).
  reflexivity.
Defined.

(** ** The counts of the summary *)

(** X5: the five counts that [summaryText] keeps add up to the number of
    items: every item is counted, and counted once. *)
Theorem counts_add_up (l : list TodoItem) :
  (c_pending (tally l) + c_in_progress (tally l) + c_done (tally l) +
   c_skipped (tally l) + c_blocked (tally l))%nat = length l.
Proof.
  rewrite tally_counts. cbn [c_pending c_in_progress c_done c_skipped
    c_blocked]. unfold count_status.
  induction l as [|x l IH]; [reflexivity|].
  rewrite !filter_cons. destruct x as [i t s r g]. cbn [status length].
  destruct s; repeat case_decide; try congruence; cbn [length]; lia.
Qed.

(** ** [clear] and [create] *)

(** X6: [clear] leaves the state that [create] with the present name of the
    list leaves: it starts the list again, numbering included. *)
Theorem clear_is_create (state : TodoState) (p q : TodoToolInput) :
  p_action p = Clear -> p_action q = Create ->
  p_name q = listName state ->
  fst (execute state p) = fst (execute state q).
Proof.
  intros Hp Hq Hn. unfold execute. rewrite Hp, Hq, Hn. reflexivity.
Qed.

Lemma clear_is_create_witness :
  let state := replay [create_request "Auth"; add_request "a"] initial_state in
  fst (execute state (request Clear))
  = fst (execute state (create_request "Auth")).
Proof.
  cbv zeta. apply clear_is_create; reflexivity.
Defined.

(** ** Records read back *)

Lemma retain_no_snapshot (branch : list (SessionEntry TodoDetails))
    (state : TodoState) :
  Forall (fun e => has_snapshot e = false) branch ->
  fold_left retain branch state = state.
Proof.
  intros H. revert state. induction H as [|e branch He _ IH]; intros state.
  - reflexivity.
  - cbn [fold_left]. rewrite <- (IH state) at 2. f_equal.
    destruct e as [[name [d|]|role]|type]; cbn in He |- *;
      try reflexivity. now rewrite He.
Qed.

(** X7: [reconstructState] gives the snapshot of the last tool result of
    [todo] that has details, whatever stands before it on the branch and
    whether or not that result reports an error; entries after it that are
    not such results, a [todo] result without details among them, change
    nothing. *)
Theorem last_record_wins (before after : list (SessionEntry TodoDetails))
    (d : TodoDetails) :
  Forall (fun e => has_snapshot e = false) after ->
  reconstructState (before ++ message (toolResult "todo" (Some d)) :: after)
  = snapshot d.
Proof.
  intros H. unfold reconstructState. rewrite fold_left_app.
  cbn [fold_left]. rewrite retain_no_snapshot by assumption.
  cbn. now destruct (snapshot d).
Qed.

Lemma last_record_wins_witness :
  let d1 := details (snd (execute initial_state (add_request "a"))) in
  let d2 := details (snd (execute one_item_state
                            (status_request Done 9 None))) in
  error d2 = Some "#9 not found" /\
  reconstructState
    [message (toolResult "todo" (Some d1));
     message (toolResult "todo" (Some d2));
     message (toolResult "todo" None);
     message (toolResult "bash" (Some d1));
     otherEntry "compaction"]
  = snapshot d2.
Proof.
  cbv zeta. split; [reflexivity|].
  apply (last_record_wins [_] [_; _; _]). repeat constructor.
Defined.

(** X8: a round trip.  The result of any call, put at the end of any
    branch as the log owner does, is read back by [reconstructState] as the
    state the call left (the records being read by value). *)
Theorem record_read_back (state : TodoState) (params : TodoToolInput)
    (branch : list (SessionEntry TodoDetails)) :
  reconstructState
    (branch ++
     [message (toolResult "todo"
                 (Some (details (snd (execute state params)))))])
  = fst (execute state params).
Proof.
  unfold reconstructState. rewrite fold_left_app. cbn.
  rewrite snapshot_is_state. now destruct (fst (execute state params)).
Qed.

(** ** The ids and the texts of the list at hand *)

(** X9: in every state reached from the initial state, whatever calls were
    made, [clear] and [create] among them, the ids of the items of the list
    are strictly increasing in the order of the list, hence distinct, and
    all of them are below [nextId]. *)
Theorem ids_of_list_increase (state : TodoState) :
  reachable state ->
  StronglySorted Z.lt (map id (items state)) /\
  NoDup (map id (items state)) /\
  Forall (fun i => i < nextId state) (map id (items state)).
Proof.
  intros H. destruct (reachable_ids_ordered state H) as [Hs Hb].
  repeat split; try assumption. now apply increasing_NoDup.
Qed.

Lemma ids_of_list_increase_witness :
  let state :=
    fst (execute
           (fst (execute one_item_state (request Clear)))
           (batch_request [entry "b"; entry "c"])) in
  map id (items state) = [1; 2] /\
  StronglySorted Z.lt (map id (items state)).
Proof.
  cbv zeta. split; [reflexivity|].
  refine (proj1 (ids_of_list_increase _ _)).
  repeat (apply reachable_step; [|reflexivity]). apply reachable_initial.
Defined.

Lemma texts_kept_nonempty_witness :
  Forall (fun it => text it <> "")
    (items (fst (execute one_item_state (add_request "b")))).
Proof.
  apply texts_kept_nonempty; [discriminate|].
  repeat constructor. discriminate.
Defined.

Lemma every_call_agrees_witness :
  let s :=
    Shared.run [Shared.Call (add_request "a");
                Shared.Call (status_request Start 1 None);
                Shared.Navigate 1] in
  agrees (Shared.execute (Shared.store s) (Shared.state s)
            (status_request Done 1 None))
         (execute (view (Shared.store s) (Shared.state s))
            (status_request Done 1 None)).
Proof.
  cbv zeta. apply every_call_agrees. repeat constructor.
Defined.

(** ** What a call writes in the store *)

Section Writes.

Local Open Scope nat_scope.

Lemma reply_arrays_old (h : Shared.Store) (st : Shared.TodoState)
    (t a : string) (e : option string) (k : nat) :
  k < length (Shared.arrays h) ->
  Shared.arrays (fst (fst (Shared.reply h st t a e))) !! k
  = Shared.arrays h !! k.
Proof.
  intros Hk. unfold Shared.reply, Shared.makeDetails, Shared.new_array. cbn.
  now rewrite lookup_app_l.
Qed.

Lemma push_item_arrays_old (h : Shared.Store) (st : Shared.TodoState)
    (t : string) (g : option string) (k : nat) :
  k <> Shared.items st ->
  Shared.arrays (fst (fst (Shared.push_item h st t g))) !! k
  = Shared.arrays h !! k /\
  Shared.items (snd (fst (Shared.push_item h st t g))) = Shared.items st.
Proof.
  intros Hk. unfold Shared.push_item, Shared.new_object, Shared.write_array.
  cbn. split; [|reflexivity]. now rewrite list_lookup_insert_ne.
Qed.

Lemma batch_loop_arrays_old (entries : list BatchEntry) (h : Shared.Store)
    (st : Shared.TodoState) (added : list TodoItem) (k : nat) :
  k <> Shared.items st ->
  Shared.arrays (fst (fst
    (fold_left
       (fun (acc : Shared.Store * Shared.TodoState * list TodoItem) entry =>
          let '(h, st, added) := acc in
          let '(h, st, item) :=
            Shared.push_item h st (e_text entry) (e_group entry) in
          (h, st, added ++ [item]))
       entries (h, st, added)))) !! k
  = Shared.arrays h !! k.
Proof.
  revert h st added. induction entries as [|e es IH]; intros h st added Hk.
  - reflexivity.
  - cbn [fold_left].
    destruct (push_item_arrays_old h st (e_text e) (e_group e) k Hk)
      as [Ha Hi].
    destruct (Shared.push_item h st (e_text e) (e_group e))
      as [[h1 st1] item1]. cbn [fst snd] in *.
    rewrite IH; [exact Ha | now rewrite Hi].
Qed.

(** X12: a call writes to one array only, the one the state refers to: every
    other array of the store, the arrays of the details of earlier results
    among them, holds after the call the references it held before.  The
    array of a result is overwritten later only if the state has come to
    refer to it, which [reconstructState] brings about. *)
Theorem call_writes_own_array (h : Shared.Store) (st : Shared.TodoState)
    (params : TodoToolInput) (k : nat) :
  k < length (Shared.arrays h) -> k <> Shared.items st ->
  Shared.arrays (fst (fst (Shared.execute h st params))) !! k
  = Shared.arrays h !! k.
Proof.
  intros Hlt Hk. unfold Shared.execute.
  destruct (p_action params).
  - unfold Shared.new_array. rewrite reply_arrays_old.
    + cbn. now rewrite lookup_app_l.
    + cbn. rewrite length_app. lia.
  - destruct (negb (truthy (p_text params)));
      [now rewrite reply_arrays_old|].
    pose proof (push_item_arrays_old h st (default "" (p_text params))
                  (p_group params) k Hk) as [Ha _].
    pose proof (push_item_arrays h st (default "" (p_text params))
                  (p_group params)) as Hlen.
    destruct (Shared.push_item h st (default "" (p_text params))
                (p_group params)) as [[h1 st1] item1].
    cbn [fst] in *. rewrite reply_arrays_old; [exact Ha | lia].
  - destruct (p_items params) as [[|e es]|];
      try now rewrite reply_arrays_old.
    pose proof (batch_loop_arrays_old (e :: es) h st [] k Hk) as Ha.
    pose proof (batch_loop_arrays (e :: es) h st []) as Hlen.
    unfold Shared.batch_loop.
    match goal with
    | |- context [fold_left ?f (e :: es) (h, st, [])] =>
        destruct (fold_left f (e :: es) (h, st, [])) as [[h1 st1] added]
    end.
    cbn [fst] in *. rewrite reply_arrays_old; [exact Ha | lia].
  - destruct (p_id params) as [i|];
      [destruct (Shared.findItem h st i) as [[ref item]|]|];
      now rewrite reply_arrays_old.
  - destruct (p_id params) as [i|];
      [destruct (Shared.findItem h st i) as [[ref item]|]|];
      now rewrite reply_arrays_old.
  - destruct (p_id params) as [i|];
      [destruct (Shared.findItem h st i) as [[ref item]|]|];
      now rewrite reply_arrays_old.
  - destruct (p_id params) as [i|];
      [destruct (Shared.findItem h st i) as [[ref item]|]|];
      now rewrite reply_arrays_old.
  - destruct (p_id params) as [i|];
      [destruct (Shared.findItem h st i) as [[ref item]|]|];
      now rewrite reply_arrays_old.
  - destruct (Shared.contents h (Shared.items st));
      now rewrite reply_arrays_old.
  - now rewrite reply_arrays_old.
  - unfold Shared.new_array. rewrite reply_arrays_old.
    + cbn. now rewrite lookup_app_l.
    + cbn. rewrite length_app. lia.
  - now rewrite reply_arrays_old.
Qed.

End Writes.

Lemma call_writes_own_array_witness :
  let s :=
    Shared.run [Shared.Call (add_request "a"); Shared.Call (add_request "b")] in
  Shared.arrays
    (fst (fst (Shared.execute (Shared.store s) (Shared.state s)
                 (add_request "c")))) !! 1%nat
  = Some [0%nat].
Proof.
  cbv zeta.
  rewrite call_writes_own_array; [reflexivity | cbn; lia | discriminate].
Defined.

(** ** The groups of the [/todos] view *)

Section Grouping.

Lemma first_seen_elem (k : string) (keys : list string) :
  k ∈ TodoListComponent.first_seen keys <-> k ∈ keys.
Proof.
  induction keys as [|y keys IH]; cbn [TodoListComponent.first_seen].
  - reflexivity.
  - rewrite !elem_of_cons, list_elem_of_filter, IH.
    destruct (decide (k = y)); intuition.
Qed.

Lemma first_seen_NoDup (keys : list string) :
  NoDup (TodoListComponent.first_seen keys).
Proof.
  induction keys as [|y keys IH]; cbn [TodoListComponent.first_seen].
  - constructor.
  - constructor; [|now apply NoDup_filter].
    rewrite list_elem_of_filter. intuition.
Qed.

Lemma first_seen_snoc (keys : list string) (k : string) :
  TodoListComponent.first_seen (keys ++ [k])
  = if decide (k ∈ keys) then TodoListComponent.first_seen keys
    else TodoListComponent.first_seen keys ++ [k].
Proof.
  induction keys as [|y keys IH].
  - cbn. destruct (decide (k ∈ [])) as [H|_]; [inversion H | reflexivity].
  - cbn [app TodoListComponent.first_seen]. rewrite IH.
    destruct (decide (k ∈ y :: keys)) as [Hin|Hin];
      destruct (decide (k ∈ keys)) as [Hin'|Hin'].
    + reflexivity.
    + apply elem_of_cons in Hin as [->|Hin]; [|contradiction].
      rewrite filter_app, filter_cons, filter_nil.
      destruct (decide (y <> y)) as [H|_]; [now contradiction H|].
      now rewrite app_nil_r.
    + exfalso. apply Hin. apply elem_of_cons. now right.
    + rewrite filter_app, filter_cons, filter_nil.
      destruct (decide (k <> y)) as [_|H]; [reflexivity|].
      exfalso. apply Hin. apply elem_of_cons. left.
      destruct (decide (k = y)); tauto.
Qed.

(** The map with one entry for each key of [keys], holding [f] of the key. *)
Lemma has_keyed (keys : list string) (f : string -> list TodoItem)
    (g : string) :
  TodoListComponent.has (map (fun k => (k, f k)) keys) g = true <-> g ∈ keys.
Proof.
  unfold TodoListComponent.has. induction keys as [|k keys IH]; cbn.
  - split; [discriminate | inversion 1].
  - rewrite elem_of_cons, orb_true_iff, IH.
    destruct (String.eqb_spec k g) as [->|Hne]; intuition congruence.
Qed.

Lemma get_keyed (keys : list string) (f : string -> list TodoItem)
    (g : string) :
  g ∈ keys -> TodoListComponent.get (map (fun k => (k, f k)) keys) g = f g.
Proof.
  unfold TodoListComponent.get. induction keys as [|k keys IH]; cbn.
  - inversion 1.
  - intros H. destruct (String.eqb_spec k g) as [->|Hne]; [reflexivity|].
    apply IH. apply elem_of_cons in H as [->|H]; [contradiction | exact H].
Qed.

Lemma replace_keyed (keys : list string) (f : string -> list TodoItem)
    (g : string) (v : list TodoItem) :
  map (fun e : string * list TodoItem =>
         if String.eqb (fst e) g then (g, v) else e)
      (map (fun k => (k, f k)) keys)
  = map (fun k => (k, if String.eqb k g then v else f k)) keys.
Proof.
  rewrite map_map. apply map_ext. intros k. cbn.
  destruct (String.eqb_spec k g) as [->|Hne]; reflexivity.
Qed.

Lemma filter_key_snoc (l : list TodoItem) (x : TodoItem) (g : string) :
  filter (fun it => TodoListComponent.group_key it = g) (l ++ [x])
  = filter (fun it => TodoListComponent.group_key it = g) l ++
    (if String.eqb (TodoListComponent.group_key x) g then [x] else []).
Proof.
  rewrite filter_app, filter_cons, filter_nil.
  destruct (String.eqb_spec (TodoListComponent.group_key x) g) as [H|H].
  - now rewrite decide_True.
  - now rewrite decide_False.
Qed.

Lemma filter_key_none (l : list TodoItem) (g : string) :
  g ∉ map TodoListComponent.group_key l ->
  filter (fun it => TodoListComponent.group_key it = g) l = [].
Proof.
  induction l as [|x l IH]; [reflexivity|].
  cbn [map]. rewrite not_elem_of_cons. intros [Hx Hl].
  rewrite filter_cons, decide_False by congruence. now apply IH.
Qed.

Lemma find_after {A} (p : A -> bool) (l1 l2 : list A) :
  List.find p l1 = None -> List.find p (l1 ++ l2) = List.find p l2.
Proof.
  induction l1 as [|x l1 IH]; [reflexivity|].
  cbn. destruct (p x); [discriminate | exact IH].
Qed.

Lemma group_seen (keys : list string) (f : string -> list TodoItem)
    (g : string) (x : TodoItem) :
  g ∈ keys ->
  let groups := map (fun k => (k, f k)) keys in
  let groups' :=
    if TodoListComponent.has groups g then groups
    else TodoListComponent.set groups g [] in
  TodoListComponent.set groups' g (TodoListComponent.get groups' g ++ [x])
  = map (fun k => (k, if String.eqb k g then f g ++ [x] else f k)) keys.
Proof.
  intros Hk. cbv zeta. rewrite (proj2 (has_keyed keys f g) Hk).
  unfold TodoListComponent.set.
  rewrite (proj2 (has_keyed keys f g) Hk), (get_keyed keys f g Hk).
  apply replace_keyed.
Qed.

Lemma group_new (keys : list string) (f : string -> list TodoItem)
    (g : string) (x : TodoItem) :
  g ∉ keys ->
  let groups := map (fun k => (k, f k)) keys in
  let groups' :=
    if TodoListComponent.has groups g then groups
    else TodoListComponent.set groups g [] in
  TodoListComponent.set groups' g (TodoListComponent.get groups' g ++ [x])
  = map (fun k => (k, f k)) keys ++ [(g, [x])].
Proof.
  intros Hk. cbv zeta.
  assert (TodoListComponent.has (map (fun k => (k, f k)) keys) g = false)
    as Hhas.
  { apply not_true_is_false. now rewrite has_keyed. }
  assert (List.find (fun e : string * list TodoItem => String.eqb (fst e) g)
            (map (fun k => (k, f k)) keys) = None) as Hfind.
  { clear Hhas. induction keys as [|k keys IH]; [reflexivity|].
    apply not_elem_of_cons in Hk as [Hne Hk]. cbn.
    rewrite (proj2 (String.eqb_neq k g)) by congruence. now apply IH. }
  rewrite Hhas.
  assert (TodoListComponent.set (map (fun k => (k, f k)) keys) g []
          = map (fun k => (k, f k)) keys ++ [(g, [])]) as ->.
  { unfold TodoListComponent.set. now rewrite Hhas. }
  assert (TodoListComponent.has
            (map (fun k => (k, f k)) keys ++ [(g, [])]) g = true) as Hhas'.
  { unfold TodoListComponent.has. rewrite existsb_app. cbn.
    rewrite String.eqb_refl. now rewrite orb_true_r. }
  assert (TodoListComponent.get
            (map (fun k => (k, f k)) keys ++ [(g, [])]) g = []) as ->.
  { unfold TodoListComponent.get.
    rewrite (find_after _ _ [(g, [])] Hfind). cbn.
    now rewrite String.eqb_refl. }
  unfold TodoListComponent.set. rewrite Hhas'.
  rewrite map_app. cbn [map app fst]. rewrite String.eqb_refl. f_equal.
  rewrite replace_keyed. apply map_ext_in. intros k Hk'.
  destruct (String.eqb_spec k g) as [->|Hne]; [|reflexivity].
  exfalso. apply Hk. now apply list_elem_of_In.
Qed.

Lemma group_items_keyed (l : list TodoItem) :
  TodoListComponent.group_items l
  = map (fun g =>
           (g, filter (fun it => TodoListComponent.group_key it = g) l))
        (TodoListComponent.first_seen (map TodoListComponent.group_key l)).
Proof.
  induction l as [|x l IH] using rev_ind; [reflexivity|].
  unfold TodoListComponent.group_items in *. rewrite fold_left_app, IH.
  cbn [fold_left]. rewrite map_app. cbn [map]. rewrite first_seen_snoc.
  destruct (decide (TodoListComponent.group_key x
                    ∈ map TodoListComponent.group_key l)) as [Hin|Hin].
  - rewrite (group_seen _
               (fun g => filter
                  (fun it => TodoListComponent.group_key it = g) l)
               _ x (proj2 (first_seen_elem _ _) Hin)).
    apply map_ext. intros k. f_equal. rewrite filter_key_snoc.
    destruct (String.eqb_spec k (TodoListComponent.group_key x)) as [->|Hne].
    + now rewrite String.eqb_refl.
    + rewrite (proj2 (String.eqb_neq _ k)) by congruence.
      now rewrite app_nil_r.
  - assert (TodoListComponent.group_key x
            ∉ TodoListComponent.first_seen
                (map TodoListComponent.group_key l)) as Hk
      by (now rewrite first_seen_elem).
    rewrite (group_new _
               (fun g => filter
                  (fun it => TodoListComponent.group_key it = g) l)
               _ x Hk).
    rewrite map_app. cbn [map]. f_equal.
    + apply map_ext_in. intros k Hk'. f_equal. rewrite filter_key_snoc.
      destruct (String.eqb_spec (TodoListComponent.group_key x) k)
        as [<-|Hne]; [|now rewrite app_nil_r].
      exfalso. apply Hk. now apply list_elem_of_In.
    + f_equal. f_equal. rewrite filter_key_snoc.
      rewrite String.eqb_refl, (filter_key_none l _ Hin). reflexivity.
Qed.

(** X13: the groups that the view builds are, in the order in which the
    group names are first seen, one group for each name, holding the items
    of that name in the order of the list; an item without a group, or with
    the empty group, goes to the group of the empty name.  No name has two
    groups. *)
Theorem groups_by_first_seen (l : list TodoItem) :
  TodoListComponent.group_items l
  = map (fun g =>
           (g, filter (fun it => TodoListComponent.group_key it = g) l))
        (TodoListComponent.first_seen (map TodoListComponent.group_key l))
  /\ NoDup (map fst (TodoListComponent.group_items l)).
Proof.
  split; [apply group_items_keyed|].
  rewrite group_items_keyed, map_map. cbn [fst]. rewrite map_id.
  apply first_seen_NoDup.
Qed.

End Grouping.

(** ** The lines of the [/todos] view *)

Section View.

Local Open Scope nat_scope.

Variable theme : Theme.
Variable truncateToWidth : string -> Z -> string.
Variable js_length : string -> Z.

Lemma count_in_keys (k : string) (ks : list string) (l : list TodoItem) :
  k ∉ ks ->
  length (filter (fun it => TodoListComponent.group_key it = k) l) +
  length (filter (fun it => TodoListComponent.group_key it ∈ ks) l)
  = length (filter (fun it => TodoListComponent.group_key it ∈ k :: ks) l).
Proof.
  intros Hk. induction l as [|x l IH]; [reflexivity|].
  rewrite !filter_cons.
  destruct (decide (TodoListComponent.group_key x = k)) as [Hx|Hx].
  - rewrite decide_False by (rewrite Hx; exact Hk).
    rewrite decide_True by (rewrite Hx; left). cbn [length]. lia.
  - destruct (decide (TodoListComponent.group_key x ∈ ks)) as [Hin|Hin].
    + rewrite decide_True by (now right). cbn [length]. lia.
    + rewrite decide_False
        by (rewrite elem_of_cons; intros [?|?]; contradiction).
      exact IH.
Qed.

Lemma list_sum_step (a : nat) (l : list nat) :
  list_sum (a :: l) = a + list_sum l.
Proof. reflexivity. Qed.

Lemma count_by_keys (keys : list string) (l : list TodoItem) :
  NoDup keys ->
  list_sum
    (map (fun g =>
            length (filter (fun it => TodoListComponent.group_key it = g) l))
       keys)
  = length (filter (fun it => TodoListComponent.group_key it ∈ keys) l).
Proof.
  induction 1 as [|k ks Hk _ IH]; cbn [map].
  - induction l as [|x l IHl]; [reflexivity|].
    rewrite filter_cons, decide_False by (inversion 1). exact IHl.
  - rewrite list_sum_step, IH. now apply count_in_keys.
Qed.

Lemma filter_all_keys (l : list TodoItem) :
  filter (fun it => TodoListComponent.group_key it
                    ∈ TodoListComponent.first_seen
                        (map TodoListComponent.group_key l)) l = l.
Proof.
  assert (forall keys : list string, (forall it, it ∈ l ->
            TodoListComponent.group_key it ∈ keys) ->
          filter (fun it => TodoListComponent.group_key it ∈ keys) l = l)
    as H.
  { intros keys. induction l as [|x l IH]; intros Hall; [reflexivity|].
    rewrite filter_cons, decide_True by (apply Hall; left).
    f_equal. apply IH. intros it Hit. apply Hall. now right. }
  apply H. intros it Hit. apply first_seen_elem.
  now apply list_elem_of_fmap_2.
Qed.

Lemma sum_with_headers (keys : list string) (h : string -> nat) :
  list_sum
    (map (fun g =>
            (if negb (String.eqb g "") then 1 else 0) + h g +
            (if negb (String.eqb g "") then 1 else 0)) keys)
  = list_sum (map h keys) + 2 * length (filter (fun g => g <> "") keys).
Proof.
  induction keys as [|k keys IH]; [reflexivity|].
  cbn [map]. rewrite !list_sum_step, IH, filter_cons.
  destruct (String.eqb_spec k "") as [->|Hne]; cbn [negb].
  - rewrite decide_False by (intros H; now apply H). lia.
  - rewrite decide_True by assumption. cbn [length]. lia.
Qed.

(** X14: the view has seven lines for an empty list; for a list of n > 0
    items it has 8 + n + 2k lines, k being the number of distinct non-empty
    group names: each item takes one line and is shown once, and each named
    group adds its heading and a blank line. *)
Theorem layout_height (c : TodoListComponent.t) (width : Z) :
  length (TodoListComponent.layout theme truncateToWidth js_length c width)
  = if Nat.eqb (length (TodoListComponent.items c)) 0 then 7
    else 8 + length (TodoListComponent.items c) +
         2 * length
               (filter (fun g => g <> "")
                  (TodoListComponent.first_seen
                     (map TodoListComponent.group_key
                        (TodoListComponent.items c)))).
Proof.
  unfold TodoListComponent.layout. cbv zeta.
  destruct (Nat.eqb (length (TodoListComponent.items c)) 0); [reflexivity|].
  rewrite !length_app. cbn [length].
  rewrite length_flat_map, group_items_keyed, map_map.
  cbn [fst snd].
  rewrite (map_ext _ (fun g =>
        (if negb (String.eqb g "") then 1 else 0) +
        length (filter (fun it => TodoListComponent.group_key it = g)
                  (TodoListComponent.items c)) +
        (if negb (String.eqb g "") then 1 else 0))).
  2:{ intros g. rewrite !length_app, length_map.
      destruct (negb (String.eqb g "")); cbn [length]; lia. }
  rewrite sum_with_headers, count_by_keys by apply first_seen_NoDup.
  rewrite filter_all_keys. lia.
Qed.

Lemma layout_same (c c' : TodoListComponent.t) (width : Z) :
  TodoListComponent.items c = TodoListComponent.items c' ->
  TodoListComponent.listName c = TodoListComponent.listName c' ->
  TodoListComponent.layout theme truncateToWidth js_length c width
  = TodoListComponent.layout theme truncateToWidth js_length c' width.
Proof. intros Hi Hn. unfold TodoListComponent.layout. now rewrite Hi, Hn. Qed.

(** The cache of a component holds the lines of the width it names. *)
Lemma cache_kept (l : list TodoItem) (name : option string)
    (ops : list TodoListComponent.Op) :
  let c :=
    fold_left
      (TodoListComponent.apply_op theme truncateToWidth js_length) ops
      (TodoListComponent.new l name) in
  TodoListComponent.items c = l /\
  TodoListComponent.listName c = name /\
  forall lines w,
    TodoListComponent.cachedLines c = Some lines ->
    TodoListComponent.cachedWidth c = Some w ->
    lines = TodoListComponent.layout theme truncateToWidth js_length
              (TodoListComponent.new l name) w.
Proof.
  induction ops as [|op ops IH] using rev_ind; cbv zeta.
  - repeat split. discriminate.
  - rewrite fold_left_app. cbn [fold_left]. cbv zeta in IH.
    destruct IH as (Hi & Hn & Hc).
    set (c := fold_left _ ops _) in *.
    destruct op as [w|]; cbn [TodoListComponent.apply_op].
    + unfold TodoListComponent.render.
      destruct (TodoListComponent.cachedLines c) as [lines|] eqn:El;
        [destruct (TodoListComponent.cachedWidth c) as [w'|] eqn:Ew;
         [destruct (Z.eqb w' w) eqn:E|]|];
        cbn [snd TodoListComponent.items TodoListComponent.listName
             TodoListComponent.cachedLines TodoListComponent.cachedWidth].
      * repeat split; try assumption. rewrite El, Ew.
        intros lines0 w0 [= <-] [= <-]. now apply Hc.
      * repeat split; try assumption. intros lines0 w0 [= <-] [= <-].
        now apply layout_same.
      * repeat split; try assumption. intros lines0 w0 [= <-] [= <-].
        now apply layout_same.
      * repeat split; try assumption. intros lines0 w0 [= <-] [= <-].
        now apply layout_same.
    + repeat split; try assumption. discriminate.
Qed.

(** X15: the cache of the view is faithful.  Whatever renderings and
    invalidations a component has gone through, [render] gives the lines
    that are computed from its items and its name for the width asked, the
    component being taken with the items it was given. *)
Theorem render_through_cache (l : list TodoItem) (name : option string)
    (ops : list TodoListComponent.Op) (width : Z) :
  fst (TodoListComponent.render theme truncateToWidth js_length
         (fold_left
            (TodoListComponent.apply_op theme truncateToWidth js_length) ops
            (TodoListComponent.new l name))
         width)
  = TodoListComponent.layout theme truncateToWidth js_length
      (TodoListComponent.new l name) width.
Proof.
  destruct (cache_kept l name ops) as (Hi & Hn & Hc).
  set (c := fold_left _ ops _) in *.
  unfold TodoListComponent.render.
  destruct (TodoListComponent.cachedLines c) as [lines|] eqn:El;
    [destruct (TodoListComponent.cachedWidth c) as [w'|] eqn:Ew;
     [destruct (Z.eqb_spec w' width) as [->|Hne]|]|];
    cbn [fst]; try (now apply layout_same).
  now apply Hc.
Qed.

End View.

(** ** The [prompt_user] tool *)

(** X16: whatever the mode, the request and the answer of the user, the
    details of [prompt_user] say [cancelled] exactly when they hold no
    answer; when they hold one, the text of the result reports it; and the
    details repeat the question. *)
Theorem prompt_answer_or_cancelled (hasUI : bool)
    (params : PromptUser.Params) (ui : PromptUser.UI) :
  let r := PromptUser.complete ui (PromptUser.execute hasUI params) in
  (PromptUser.cancelled (PromptUser.details r) = true <->
   PromptUser.answer (PromptUser.details r) = None) /\
  (forall a,
      PromptUser.answer (PromptUser.details r) = Some a ->
      PromptUser.content r = "User responded: " +:+ a) /\
  PromptUser.question (PromptUser.details r) = PromptUser.p_question params.
Proof.
  cbv zeta. unfold PromptUser.execute.
  destruct hasUI; cbn [negb].
  2:{ cbn. repeat split; try discriminate. }
  destruct (PromptUser.p_type params) eqn:Et.
  - destruct (Nat.eqb (length (default [] (PromptUser.p_options params))) 0).
    + cbn. repeat split; try discriminate.
    + cbn [PromptUser.complete]. unfold PromptUser.answered.
      destruct (PromptUser.ui_select ui _ _) as [a|]; cbn;
        repeat split; try discriminate; now intros a0 [= <-].
  - cbn. repeat split; try discriminate. now intros a0 [= <-].
  - cbn [PromptUser.complete]. unfold PromptUser.answered.
    destruct (PromptUser.ui_input ui _ _) as [a|]; cbn;
      repeat split; try discriminate; now intros a0 [= <-].
Qed.

(** X17: [prompt_user] returns without opening a dialog exactly when there
    is no UI, or when a [select] has no option, the list being absent or
    empty; the result then counts as cancelled, holds no answer, and is
    shown as cancelled, not as the error its text reports. *)
Theorem prompt_without_dialog (hasUI : bool) (params : PromptUser.Params) :
  ((exists r, PromptUser.execute hasUI params = PromptUser.Return r) <->
   (hasUI = false \/
    (PromptUser.p_type params = PromptUser.select /\
     default [] (PromptUser.p_options params) = []))) /\
  (forall r theme,
      PromptUser.execute hasUI params = PromptUser.Return r ->
      PromptUser.cancelled (PromptUser.details r) = true /\
      PromptUser.answer (PromptUser.details r) = None /\
      PromptUser.shown r theme = fg theme "warning" "✗ Cancelled").
Proof.
  unfold PromptUser.execute. destruct hasUI; cbn [negb].
  2:{ split; [split; eauto|]. intros r theme [= <-]. repeat split. }
  destruct (PromptUser.p_type params) eqn:Et.
  - destruct (default [] (PromptUser.p_options params)) as [|o os] eqn:Eo;
      cbn [length Nat.eqb].
    + split; [split; eauto|]. intros r theme [= <-]. repeat split.
    + split; [|discriminate]. split.
      * intros [r H]. discriminate.
      * intros [H|[_ H]]; discriminate.
  - split; [|discriminate]. split.
    + intros [r H]. discriminate.
    + intros [H|[H _]]; discriminate.
  - split; [|discriminate]. split.
    + intros [r H]. discriminate.
    + intros [H|[H _]]; discriminate.
Qed.

Lemma prompt_without_dialog_witness :
  let params :=
    {| PromptUser.p_question := "Which database?";
       PromptUser.p_type := PromptUser.select;
       PromptUser.p_options := None;
       PromptUser.p_placeholder := None |} in
  exists r,
    PromptUser.execute true params = PromptUser.Return r /\
    PromptUser.cancelled (PromptUser.details r) = true /\
    PromptUser.options (PromptUser.details r) = Some [].
Proof.
  cbv zeta.
  destruct (proj2 (proj1 (prompt_without_dialog true
                            {| PromptUser.p_question := "Which database?";
                               PromptUser.p_type := PromptUser.select;
                               PromptUser.p_options := None;
                               PromptUser.p_placeholder := None |}))
              (or_intror (conj eq_refl eq_refl))) as [r Hr].
  exists r. split; [exact Hr|]. injection Hr as <-. split; reflexivity.
Defined.

(** X18: a [confirm] is never cancelled: the answer is ["yes"] when the
    dialog returns true and ["no"] when it returns false, and the result is
    shown as [Yes] or [No] accordingly. *)
Theorem confirm_yes_or_no (params : PromptUser.Params) (ui : PromptUser.UI)
    (theme : Theme) :
  PromptUser.p_type params = PromptUser.confirm ->
  let r := PromptUser.complete ui (PromptUser.execute true params) in
  let yes :=
    PromptUser.ui_confirm ui "Question" (PromptUser.p_question params) in
  PromptUser.cancelled (PromptUser.details r) = false /\
  PromptUser.answer (PromptUser.details r)
    = Some (if yes then "yes" else "no") /\
  PromptUser.shown r theme
    = fg theme "success" "✓ " +:+
      fg theme "accent" (if yes then "Yes" else "No").
Proof.
  intros Et. cbv zeta. unfold PromptUser.execute. rewrite Et. cbn [negb].
  cbn [PromptUser.complete]. unfold PromptUser.finish, PromptUser.shown.
  cbn. rewrite Et.
  destruct (PromptUser.ui_confirm ui "Question" (PromptUser.p_question params));
    repeat split.
Qed.

Lemma confirm_yes_or_no_witness :
  let ui :=
    {| PromptUser.ui_select := fun _ _ => None;
       PromptUser.ui_confirm := fun _ _ => false;
       PromptUser.ui_input := fun _ _ => None |} in
  let params :=
    {| PromptUser.p_question := "Delete the file?";
       PromptUser.p_type := PromptUser.confirm;
       PromptUser.p_options := None;
       PromptUser.p_placeholder := None |} in
  PromptUser.answer
    (PromptUser.details
       (PromptUser.complete ui (PromptUser.execute true params)))
  = Some "no".
Proof.
  cbv zeta.
  refine (proj1 (proj2 (confirm_yes_or_no _ _ {| fg := fun _ t => t;
                                                bold := fun t => t |} _))).
  reflexivity.
Defined.

(** ** Collapsed and expanded results *)

Lemma render_list_same (theme : Theme) (d : TodoDetails)
    (c0 : option string) :
  truthy (error d) = false ->
  action d = "list" -> (length (items (snapshot d)) <= 8)%nat ->
  renderResult c0 (Some d) false theme = renderResult c0 (Some d) true theme.
Proof.
  intros He Ha Hlen. unfold renderResult. rewrite He, Ha.
  cbn -[Nat.ltb Nat.eqb take length].
  destruct (Nat.eqb (length (items (snapshot d))) 0); [reflexivity|].
  rewrite take_ge by lia.
  destruct (Nat.ltb_spec 8 (length (items (snapshot d)))); [lia|].
  reflexivity.
Qed.

(** X19: a result of any call but [add] and [batch], on a list of at most
    eight items, is shown the same collapsed and expanded; the two views
    differ only for [add] and [batch], and for a [list] of more than eight
    items. *)
Theorem collapsed_is_expanded (state : TodoState) (params : TodoToolInput)
    (theme : Theme) :
  p_action params <> Add -> p_action params <> Batch ->
  (length (items (fst (execute state params))) <= 8)%nat ->
  shown (snd (execute state params)) false theme
  = shown (snd (execute state params)) true theme.
Proof.
  intros Hadd Hbatch. unfold shown.
  rewrite <- (snapshot_is_state state params).
  unfold execute.
  destruct (p_action params) eqn:Ha; try congruence;
    try (intros _; reflexivity);
    try (destruct (p_id params) as [i|]; [destruct (findItem state i)|];
         intros _; reflexivity).
  - destruct state as [[|x l] n name]; [intros _; reflexivity|].
    intros Hlen. now apply render_list_same.
Qed.

Lemma collapsed_is_expanded_witness :
  let state := replay [add_request "a"; add_request "b"] initial_state in
  let theme := {| fg := fun _ t => t; bold := fun t => t |} in
  shown (snd (execute state (request List))) false theme
  = shown (snd (execute state (request List))) true theme.
Proof.
  cbv zeta. apply collapsed_is_expanded; [discriminate | discriminate |].
  cbn. lia.
Defined.
